(** * Trip lifecycle and itinerary aggregation of the journey API

    A shallow embedding of the HTTP handlers of package [api]
    ([internal/api]): the participant and trip confirmation handlers, the
    trip update handler, the activity handlers with the date grouping of
    [GetTripsTripIDActivities], and the invitation transaction.  The
    package comes in two revisions, one of which leaves the handlers of
    invitations, links and participants as stubs; the handlers below are
    those of the other, and agree with the first on the handlers both
    implement but for one statement of [GetTripsTripIDActivities].

    Handlers are written as programs over the calls they make to their
    injected collaborators (the [store], the [pool], the [mailer] and the
    [logger] fields of [API]); an interpreter runs a program against an
    implementation of those collaborators and records the calls made. *)

From Stdlib Require Import List String Ascii ZArith NArith Bool Arith Lia.
Import ListNotations.
Local Open Scope string_scope.
Local Open Scope list_scope.

(** ** Go values *)

(** [uuid.UUID]: sixteen bytes, kept as the number they spell. *)
Definition UUID := N.
Bind Scope N_scope with UUID.

(** [time.Time]: an instant, counted from the zero value of the type.
    The times the handlers compare come from the store or from the
    decoder, with one location and no monotonic reading, so that [==] on
    them is the equality of the instants. *)
Definition Time := Z.
Bind Scope Z_scope with Time.
Definition zeroTime : Time := 0%Z.

(** [pgtype.Timestamp], with the two fields the handlers set and read. *)
Record Timestamp := mkTimestamp { ts_Time : Time; ts_Valid : bool }.

(** Go's [error] values met by the handlers.  [pgx.ErrNoRows] and
    [pgx.ErrTxClosed] are told apart from every other error, which only
    carries its message. *)
Inductive error :=
| ErrNoRows
| ErrTxClosed
| Err (msg : string).

(** [errors.Is(err, pgx.ErrNoRows)] *)
Definition is_ErrNoRows (e : error) : bool :=
  match e with ErrNoRows => true | _ => false end.

(** [err.Error()] *)
Definition error_Error (e : error) : string :=
  match e with
  | ErrNoRows => "no rows in result set"
  | ErrTxClosed => "tx is closed"
  | Err m => m
  end.

(** *** Slices

    A slice is [nil] or holds elements; [var s []T] starts as [nil],
    [[]T{}] is the empty slice that is not [nil]. *)
Definition slice (A : Type) := option (list A).

Definition nil_slice {A} : slice A := None.
Definition empty_slice {A} : slice A := Some [].

Definition elems {A} (s : slice A) : list A :=
  match s with None => [] | Some l => l end.

Definition len {A} (s : slice A) : nat := List.length (elems s).

(** [append(s, x)] *)
Definition append {A} (s : slice A) (x : A) : slice A := Some (elems s ++ [x]).

(** [s[i]]: [None] stands for the run-time panic "index out of range". *)
Definition index {A} (s : slice A) (i : nat) : option A := nth_error (elems s) i.

(** [for i := lo; i < lo + n; i++ { body }] over a loop state; the body
    may panic ([None]), which ends the loop. *)
Fixpoint for_loop {St : Type} (i n : nat) (body : nat -> St -> option St)
  (s : St) : option St :=
  match n with
  | O => Some s
  | S n' =>
      match body i s with
      | Some s' => for_loop (S i) n' body s'
      | None => None
      end
  end.

(** ** Rows of the store

    The [pgstore] models, with the fields the handlers and the mailer
    read; [part_TripID] and [act_TripID] are the trip references of the
    data model. *)

Record Participant := mkParticipant {
  part_ID : UUID;
  part_TripID : UUID;
  part_Email : string;
  part_IsConfirmed : bool
}.

Record Trip := mkTrip {
  trip_ID : UUID;
  trip_Destination : string;
  trip_OwnerEmail : string;
  trip_OwnerName : string;
  trip_IsConfirmed : bool;
  trip_StartsAt : Timestamp;
  trip_EndsAt : Timestamp
}.

Record Activity := mkActivity {
  act_ID : UUID;
  act_TripID : UUID;
  act_Title : string;
  act_OccursAt : Timestamp
}.

Record UpdateTripParams := mkUpdateTripParams {
  utp_Destination : string;
  utp_EndsAt : Timestamp;
  utp_StartsAt : Timestamp;
  utp_IsConfirmed : bool;
  utp_ID : UUID
}.

Record CreateActivityParams := mkCreateActivityParams {
  cap_TripID : UUID;
  cap_Title : string;
  cap_OccursAt : Timestamp
}.

Record InviteParticipantsToTripParams := mkInviteParams {
  inv_TripID : UUID;
  inv_Email : string
}.

(** ** Request and response bodies ([spec] package) *)

Record Error := mkError { Message : string }.

Record UpdateTripRequest := mkUpdateTripRequest {
  utr_Destination : string;
  utr_EndsAt : Time;
  utr_StartsAt : Time
}.

Record CreateActivityRequest := mkCreateActivityRequest {
  car_OccursAt : Time;
  car_Title : string
}.

Record InviteParticipantRequest := mkInviteParticipantRequest {
  ipr_Email : string
}.

Record GetTripActivitiesResponseInnerArray := mkInner {
  inner_ID : string;
  inner_OccursAt : Time;
  inner_Title : string
}.

Record GetTripActivitiesResponseOuterArray := mkOuter {
  outer_Activities : slice GetTripActivitiesResponseInnerArray;
  outer_Date : Time
}.

Record GetTripActivitiesResponse := mkGetTripActivitiesResponse {
  Activities : slice GetTripActivitiesResponseOuterArray
}.

(** The zero values of the request bodies, as [var body T] leaves them. *)
Definition zero_UpdateTripRequest : UpdateTripRequest :=
  mkUpdateTripRequest "" zeroTime zeroTime.
Definition zero_CreateActivityRequest : CreateActivityRequest :=
  mkCreateActivityRequest zeroTime "".
Definition zero_InviteParticipantRequest : InviteParticipantRequest :=
  mkInviteParticipantRequest "".

(** ** Library functions the handlers call

    [uuid.Parse], [UUID.String], [json.NewDecoder(r.Body).Decode] and
    [api.validator.Struct] belong to imported packages; the handlers are
    written over any behaviour of them.  A decoder gives the value it
    leaves in the zero-initialised [body] together with the error it
    returns; the validation rules are the [validate] tags of the request
    types. *)
Record Libs := mkLibs {
  uuid_Parse : string -> UUID + error;
  uuid_String : UUID -> string;
  decode_UpdateTripRequest : string -> UpdateTripRequest * option error;
  decode_InviteParticipantRequest :
    string -> InviteParticipantRequest * option error;
  validate_UpdateTripRequest : UpdateTripRequest -> option error;
  validate_InviteParticipantRequest : InviteParticipantRequest -> option error
}.

(** [*http.Request], reduced to the bytes of its body. *)
Record Request := mkRequest { req_Body : string }.

(** ** The date grouping of [GetTripsTripIDActivities]

    The three loops that follow the store call, each over the variable it
    builds.  [None] is a run-time panic of an index expression. *)
Section Aggregation.
Context (lib : Libs).

(** The element built from [acts[i]]:
    [{ID: acts[i].ID.String(), Title: acts[i].Title,
      OccursAt: acts[i].OccursAt.Time}] *)
Definition inner_of (a : Activity) : GetTripActivitiesResponseInnerArray :=
  {| inner_ID := uuid_String lib (act_ID a);
     inner_Title := act_Title a;
     inner_OccursAt := ts_Time (act_OccursAt a) |}.

(** [for i := 0; i < len(acts); i++ { responseActs = append(...) }] *)
Definition responseActs_of (acts : slice Activity)
  : option (slice GetTripActivitiesResponseInnerArray) :=
  for_loop 0 (len acts)
    (fun i responseActs =>
       match index acts i with
       | Some a => Some (append responseActs (inner_of a))
       | None => None
       end)
    nil_slice.

(** The body of [for j := 0; j < len(responseActs); j++ { ... }]: the
    first date is appended; a later one is appended when it differs from
    [responseActsDates[j-1]]. *)
Definition dates_step
  (responseActs : slice GetTripActivitiesResponseInnerArray)
  (j : nat) (responseActsDates : slice Time) : option (slice Time) :=
  if Nat.eqb j 0 then
    match index responseActs j with
    | Some a => Some (append responseActsDates (inner_OccursAt a))
    | None => None
    end
  else
    match index responseActsDates (j - 1) with
    | None => None
    | Some d =>
        match index responseActs j with
        | None => None
        | Some a =>
            if negb (Z.eqb d (inner_OccursAt a))
            then Some (append responseActsDates (inner_OccursAt a))
            else Some responseActsDates
        end
    end.

Definition responseActsDates_of
  (responseActs : slice GetTripActivitiesResponseInnerArray)
  : option (slice Time) :=
  for_loop 0 (len responseActs) (dates_step responseActs) nil_slice.

(** [for y := 0; y < len(responseActs); y++ { ... }], the inner loop for
    the date at index [x]. *)
Definition actsInner_of
  (responseActs : slice GetTripActivitiesResponseInnerArray)
  (responseActsDates : slice Time) (x : nat)
  : option (slice GetTripActivitiesResponseInnerArray) :=
  for_loop 0 (len responseActs)
    (fun y actsInner =>
       match index responseActs y with
       | None => None
       | Some a =>
           match index responseActsDates x with
           | None => None
           | Some d =>
               if Z.eqb (inner_OccursAt a) d
               then Some (append actsInner a)
               else Some actsInner
           end
       end)
    nil_slice.

(** [for x := 0; x < len(responseActsDates); x++ { ... }], from the
    value [responseActsFinal] has when the loop starts. *)
Definition responseActsFinal_of
  (responseActs : slice GetTripActivitiesResponseInnerArray)
  (responseActsDates : slice Time)
  (responseActsFinal : slice GetTripActivitiesResponseOuterArray)
  : option (slice GetTripActivitiesResponseOuterArray) :=
  for_loop 0 (len responseActsDates)
    (fun x responseActsFinal =>
       match actsInner_of responseActs responseActsDates x with
       | None => None
       | Some actsInner =>
           match index responseActsDates x with
           | None => None
           | Some d => Some (append responseActsFinal (mkOuter actsInner d))
           end
       end)
    responseActsFinal.

(** The whole computation, from [acts] to [responseActsFinal].  With
    [guard] the empty case is set to [[]T{}] first
    ([if len(responseActsDates) == 0 { ... }]), as in the revision of the
    package that implements every handler; the revision of
    [internal/api/api.go] that leaves four handlers as stubs has no such
    statement ([guard = false]). *)
Definition group_by_date (guard : bool) (acts : slice Activity)
  : option (slice GetTripActivitiesResponseOuterArray) :=
  match responseActs_of acts with
  | None => None
  | Some responseActs =>
      match responseActsDates_of responseActs with
      | None => None
      | Some responseActsDates =>
          let responseActsFinal :=
            if guard && Nat.eqb (len responseActsDates) 0
            then empty_slice else nil_slice in
          responseActsFinal_of responseActs responseActsDates
            responseActsFinal
      end
  end.
End Aggregation.

(** Two neighbours of a list of dates are equal and an element follows
    them. *)
Fixpoint early_repeat (l : list Time) : bool :=
  match l with
  | [] => false
  | a :: t =>
      match t with
      | b :: _ :: _ => Z.eqb a b || early_repeat t
      | _ => false
      end
  end.

(** ** Responses ([spec.Response])

    Every [...JSON<code>Response] constructor of the generated [spec]
    package pairs its argument with the status code of its name. *)
Inductive payload :=
| NoBody
| ErrorBody (e : Error)
| UpdateTripRequestBody (b : UpdateTripRequest)
| GetTripActivitiesResponseBody (r : GetTripActivitiesResponse)
| CreateActivityResponseBody (ActivityID : string).

Record Response := mkResponse { Code : Z; body : payload }.

Definition JSON400Response (e : Error) : Response := mkResponse 400 (ErrorBody e).

Definition PatchParticipantsParticipantIDConfirmJSON400Response := JSON400Response.
Definition PatchParticipantsParticipantIDConfirmJSON204Response : Response :=
  mkResponse 204 NoBody.
Definition PutTripsTripIDJSON400Response := JSON400Response.
Definition PutTripsTripIDJSON204Response (b : UpdateTripRequest) : Response :=
  mkResponse 204 (UpdateTripRequestBody b).
Definition GetTripsTripIDActivitiesJSON400Response := JSON400Response.
Definition GetTripsTripIDActivitiesJSON200Response
  (r : GetTripActivitiesResponse) : Response :=
  mkResponse 200 (GetTripActivitiesResponseBody r).
Definition PostTripsTripIDActivitiesJSON400Response := JSON400Response.
Definition PostTripsTripIDActivitiesJSON201Response (ActivityID : string)
  : Response :=
  mkResponse 201 (CreateActivityResponseBody ActivityID).
Definition GetTripsTripIDConfirmJSON400Response := JSON400Response.
Definition GetTripsTripIDConfirmJSON204Response : Response :=
  mkResponse 204 NoBody.
Definition PostTripsTripIDInvitesJSON400Response := JSON400Response.
Definition PostTripsTripIDInvitesJSON201Response : Response :=
  mkResponse 201 NoBody.

(** The answers of [PostTripsTripIDInvites] to a failed [Begin], a failed
    [Commit] and a failed validation. *)
Definition begin_failed : Response :=
  PostTripsTripIDInvitesJSON400Response
    (mkError "pgstore: failed to begin tx for PostTripsTripIDInvites").

Definition commit_failed : Response :=
  PostTripsTripIDInvitesJSON400Response
    (mkError "pgstore: failed to commit tx for PostTripsTripIDInvites").

Definition validation_failed (errVal : error) : Response :=
  PostTripsTripIDInvitesJSON400Response
    (mkError ("invalid input: " ++ error_Error errVal)%string).

(** ** Calls to the collaborators of [API]

    The methods of the [store] and [mailer] interfaces the handlers use,
    [api.pool.Begin], the methods of the transaction it returns (the
    queries of [api.store.WithTx(tx)] run on that transaction), and
    [api.logger.Error]. *)
Definition Tx := nat.

Inductive call :=
| GetParticipant (id : UUID)
| ConfirmParticipant (id : UUID)
| GetTrip (id : UUID)
| UpdateTrip (arg : UpdateTripParams)
| GetTripActivities (tripID : UUID)
| CreateActivity (arg : CreateActivityParams)
| PoolBegin
| InviteParticipantsToTrip (tx : Tx) (arg : slice InviteParticipantsToTripParams)
| TxCommit (tx : Tx)
| TxRollback (tx : Tx)
| SendEmailInvitations (tripID : UUID)
| LoggerError (msg : string) (err : error) (key value : string).

(** What a call gives back: the value or the error of a [(T, error)]
    result, [None] for a [nil] error of an [error] result. *)
Definition ans (c : call) : Type :=
  match c with
  | GetParticipant _ => (Participant + error)%type
  | ConfirmParticipant _ => option error
  | GetTrip _ => (Trip + error)%type
  | UpdateTrip _ => option error
  | GetTripActivities _ => (slice Activity + error)%type
  | CreateActivity _ => (UUID + error)%type
  | PoolBegin => (Tx + error)%type
  | InviteParticipantsToTrip _ _ => (Z + error)%type
  | TxCommit _ => option error
  | TxRollback _ => option error
  | SendEmailInvitations _ => option error
  | LoggerError _ _ _ _ => unit
  end.

(** Programs: return, call a collaborator and go on with its answer,
    start a goroutine ([go func() { ... }()]) and go on, or panic. *)
Inductive prog (A : Type) : Type :=
| Ret (a : A)
| Do (c : call) (k : ans c -> prog A)
| Go (task : prog unit) (k : prog A)
| Panic (msg : string).

Arguments Ret {A} a.
Arguments Do {A} c k.
Arguments Go {A} task k.
Arguments Panic {A} msg.

Fixpoint bind {A B : Type} (p : prog A) (f : A -> prog B) : prog B :=
  match p with
  | Ret a => f a
  | Do c k => Do c (fun x => bind (k x) f)
  | Go t k => Go t (bind k f)
  | Panic m => Panic m
  end.

Declare Scope prog_scope.
Delimit Scope prog_scope with prog.
Notation "x <- c ;; k" := (bind c (fun x => k))
  (at level 100, c at next level, right associativity) : prog_scope.
Notation "c ;;; k" := (bind c (fun _ => k))
  (at level 100, right associativity) : prog_scope.

(** One call, its answer returned. *)
Definition perform (c : call) : prog (ans c) := Do c Ret.

(** [defer d] at the head of a block [p]: [d] runs when [p] returns, after
    the returned value is fixed, and also when [p] panics. *)
Fixpoint defer {A : Type} (d : prog unit) (p : prog A) : prog A :=
  match p with
  | Ret a => bind d (fun _ => Ret a)
  | Do c k => Do c (fun x => defer d (k x))
  | Go t k => Go t (defer d k)
  | Panic m => bind d (fun _ => Panic m)
  end.

(** ** Running a program

    An implementation of the collaborators answers each call and moves
    its own state [W].  A run gives what the program did: its outcome, the
    final state, the calls in the order they were made, and the goroutines
    it started (they are not run here: the program does not wait for
    them). *)
Inductive outcome (A : Type) : Type :=
| Returned (a : A)
| Panicked (msg : string).

Arguments Returned {A} a.
Arguments Panicked {A} msg.

Definition impl (W : Type) : Type := forall c : call, W -> ans c * W.

Record ran (W A : Type) : Type := mkRan {
  out : outcome A;
  final : W;
  trace : list call;
  started : list (prog unit)
}.

Arguments mkRan {W A} out final trace started.
Arguments out {W A} r.
Arguments final {W A} r.
Arguments trace {W A} r.
Arguments started {W A} r.

Fixpoint run {W A : Type} (h : impl W) (p : prog A) (w : W) : ran W A :=
  match p with
  | Ret a => mkRan (Returned a) w [] []
  | Do c k =>
      let r := run h (k (fst (h c w))) (snd (h c w)) in
      mkRan (out r) (final r) (c :: trace r) (started r)
  | Go t k =>
      let r := run h k w in
      mkRan (out r) (final r) (trace r) (t :: started r)
  | Panic m => mkRan (Panicked m) w [] []
  end.

(** The goroutines of a run, each run to its end in the order they were
    started, from a given state; goroutines they would start in turn are
    left out (the handlers start none from a goroutine). *)
Fixpoint run_tasks {W : Type} (h : impl W) (ts : list (prog unit)) (w : W)
  : W * list call :=
  match ts with
  | [] => (w, [])
  | t :: ts' =>
      let r := run h t w in
      let '(w', tr) := run_tasks h ts' (final r) in
      (w', trace r ++ tr)
  end.

(** A property of every call a program can make, whatever the answers,
    itself or in a goroutine it starts. *)
Inductive calls_only (P : call -> Prop) : forall {A : Type}, prog A -> Prop :=
| co_Ret A (a : A) : calls_only P (Ret a)
| co_Do A c (k : ans c -> prog A) :
    P c -> (forall x, calls_only P (k x)) -> calls_only P (Do c k)
| co_Go A t (k : prog A) :
    calls_only P t -> calls_only P k -> calls_only P (Go t k)
| co_Panic A m : calls_only P (@Panic A m).

(** ** Schedules of the goroutines

    [run] leaves the goroutines a program starts aside.  [run_inline]
    runs each of them to its end at the point where it is started (the
    goroutine is done before the program goes on); [run_detached] runs
    them once the program has returned. *)
Fixpoint run_inline {W A : Type} (h : impl W) (p : prog A) (w : W) : ran W A :=
  match p with
  | Ret a => mkRan (Returned a) w [] []
  | Do c k =>
      let r := run_inline h (k (fst (h c w))) (snd (h c w)) in
      mkRan (out r) (final r) (c :: trace r) []
  | Go t k =>
      let rt := run_inline h t w in
      let r := run_inline h k (final rt) in
      mkRan (out r) (final r) (trace rt ++ trace r) []
  | Panic m => mkRan (Panicked m) w [] []
  end.

Definition run_detached {W A : Type} (h : impl W) (p : prog A) (w : W)
  : ran W A :=
  let r := run h p w in
  let '(w', tr) := run_tasks h (started r) (final r) in
  mkRan (out r) w' (trace r ++ tr) [].

(** ** Kinds of calls *)

Definition is_UpdateTrip (c : call) : Prop :=
  match c with UpdateTrip _ => True | _ => False end.

Definition is_SendEmailInvitations (c : call) : Prop :=
  match c with SendEmailInvitations _ => True | _ => False end.

Definition is_LoggerError (c : call) : Prop :=
  match c with LoggerError _ _ _ _ => True | _ => False end.

Definition mailer_or_logger (c : call) : Prop :=
  is_SendEmailInvitations c \/ is_LoggerError c.

(** The program asks the mailer nothing itself; the goroutines it starts
    call the mailer and the logger only. *)
Inductive mail_detached : forall {A : Type}, prog A -> Prop :=
| md_Ret A (a : A) : mail_detached (Ret a)
| md_Do A c (k : ans c -> prog A) :
    ~ is_SendEmailInvitations c -> (forall x, mail_detached (k x)) ->
    mail_detached (Do c k)
| md_Go A t (k : prog A) :
    calls_only mailer_or_logger t -> mail_detached k -> mail_detached (Go t k)
| md_Panic A m : mail_detached (@Panic A m).

(** ** The handlers *)
Section Handlers.
Context (lib : Libs).

(** The logging of a failed read and the answer that follows it. *)
Definition log_then {A : Type} (msg : string) (err : error)
  (key value : string) (k : prog A) : prog A :=
  Do (LoggerError msg err key value) (fun _ => k).

(** Confirms a participant on a trip.
    (PATCH /participants/{participantId}/confirm) *)
Definition PatchParticipantsParticipantIDConfirm
  (r : Request) (participantID : string) : prog Response :=
  match uuid_Parse lib participantID with
  | inr _ =>
      Ret (PatchParticipantsParticipantIDConfirmJSON400Response
             (mkError "invalid uuid"))
  | inl id =>
      Do (GetParticipant id) (fun res =>
      match res with
      | inr err =>
          if is_ErrNoRows err then
            Ret (PatchParticipantsParticipantIDConfirmJSON400Response
                   (mkError "participant not found"))
          else
            log_then "failed to get participant" err
              "participant_id" participantID
              (Ret (PatchParticipantsParticipantIDConfirmJSON400Response
                      (mkError "something went wrong, try again")))
      | inl participant =>
          if part_IsConfirmed participant then
            Ret (PatchParticipantsParticipantIDConfirmJSON400Response
                   (mkError "participant already confirmed"))
          else
            Do (ConfirmParticipant id) (fun err =>
            match err with
            | Some err =>
                log_then "failed to confim participant" err
                  "participant_id" participantID
                  (Ret (PatchParticipantsParticipantIDConfirmJSON400Response
                          (mkError "something went wrong, try again")))
            | None =>
                Ret PatchParticipantsParticipantIDConfirmJSON204Response
            end)
      end)
  end.

(** Update a trip.  (PUT /trips/{tripId})

    A decoding error builds a 400 response that is not returned: the
    handler goes on with what the decoder left in [body]. *)
Definition PutTripsTripID (r : Request) (tripID : string) : prog Response :=
  match uuid_Parse lib tripID with
  | inr _ => Ret (PutTripsTripIDJSON400Response (mkError "invalid uuid"))
  | inl id =>
      Do (GetTrip id) (fun res =>
      match res with
      | inr err =>
          if is_ErrNoRows err then
            Ret (PutTripsTripIDJSON400Response (mkError "trip not found"))
          else
            log_then "failed to get trip" err "trip_id" tripID
              (Ret (PutTripsTripIDJSON400Response
                      (mkError "something went wrong, try again")))
      | inl trip =>
          let '(body, errJson) := decode_UpdateTripRequest lib (req_Body r) in
          match validate_UpdateTripRequest lib body with
          | Some err =>
              Ret (PutTripsTripIDJSON400Response
                     (mkError ("invalid input: " ++ error_Error err)%string))
          | None =>
              let params :=
                {| utp_ID := trip_ID trip;
                   utp_Destination := utr_Destination body;
                   utp_IsConfirmed := trip_IsConfirmed trip;
                   utp_StartsAt := mkTimestamp (utr_StartsAt body) true;
                   utp_EndsAt := mkTimestamp (utr_EndsAt body) true |} in
              Do (UpdateTrip params) (fun errExec =>
              match errExec with
              | Some _ =>
                  Ret (PutTripsTripIDJSON400Response
                         (mkError "failed to update trip, try again"))
              | None => Ret (PutTripsTripIDJSON204Response body)
              end)
          end
      end)
  end.

(** Get a trip activities.  (GET /trips/{tripId}/activities)

    [guard] tells the two copies of the handler apart, see
    [group_by_date]. *)
Definition GetTripsTripIDActivities_with (guard : bool)
  (r : Request) (tripID : string) : prog Response :=
  match uuid_Parse lib tripID with
  | inr _ =>
      Ret (GetTripsTripIDActivitiesJSON400Response (mkError "invalid uuid"))
  | inl id =>
      Do (GetTripActivities id) (fun res =>
      match res with
      | inr err =>
          if is_ErrNoRows err then
            Ret (GetTripsTripIDActivitiesJSON400Response
                   (mkError "trip not found"))
          else
            log_then "failed to get trip" err "trip_id" tripID
              (Ret (GetTripsTripIDActivitiesJSON400Response
                      (mkError "something went wrong, try again")))
      | inl acts =>
          match group_by_date lib guard acts with
          | None => Panic "runtime error: index out of range"
          | Some responseActsFinal =>
              Ret (GetTripsTripIDActivitiesJSON200Response
                     (mkGetTripActivitiesResponse responseActsFinal))
          end
      end)
  end.

(** The handler of the revision that implements every handler. *)
Definition GetTripsTripIDActivities := GetTripsTripIDActivities_with true.

(** The handler of the revision of [internal/api/api.go] with stubs. *)
Definition GetTripsTripIDActivities_api_go :=
  GetTripsTripIDActivities_with false.

(** Create a trip activity.  (POST /trips/{tripId}/activities)

    [var body spec.CreateActivityRequest] is read without any statement
    having written to it. *)
Definition PostTripsTripIDActivities (r : Request) (tripID : string)
  : prog Response :=
  match uuid_Parse lib tripID with
  | inr _ =>
      Ret (PostTripsTripIDActivitiesJSON400Response (mkError "invalid uuid"))
  | inl tripUUID =>
      Do (GetTrip tripUUID) (fun res =>
      match res with
      | inr err =>
          if is_ErrNoRows err then
            Ret (PostTripsTripIDActivitiesJSON400Response
                   (mkError "trip not found"))
          else
            log_then "failed to get trip" err "trip_id" tripID
              (Ret (PostTripsTripIDActivitiesJSON400Response
                      (mkError "something went wrong, try again")))
      | inl _ =>
          let body := zero_CreateActivityRequest in
          Do (CreateActivity
                {| cap_TripID := tripUUID;
                   cap_Title := car_Title body;
                   cap_OccursAt := mkTimestamp (car_OccursAt body) true |})
             (fun res =>
          match res with
          | inr _ =>
              Ret (PostTripsTripIDActivitiesJSON400Response
                     (mkError "failed to create activity, try again"))
          | inl id =>
              Ret (PostTripsTripIDActivitiesJSON201Response
                     (uuid_String lib id))
          end)
      end)
  end.

(** The goroutine of [GetTripsTripIDConfirm]. *)
Definition send_invitations_task (tripUUID : UUID) : prog unit :=
  Do (SendEmailInvitations tripUUID) (fun err =>
  match err with
  | Some err =>
      log_then "failed to send email on GetTripsTripIDConfirm" err
        "trip_id" (uuid_String lib tripUUID) (Ret tt)
  | None => Ret tt
  end).

(** Confirm a trip and send e-mail invitations.
    (GET /trips/{tripId}/confirm) *)
Definition GetTripsTripIDConfirm (r : Request) (tripID : string)
  : prog Response :=
  match uuid_Parse lib tripID with
  | inr _ =>
      Ret (GetTripsTripIDConfirmJSON400Response (mkError "invalid uuid"))
  | inl tripUUID =>
      Do (GetTrip tripUUID) (fun res =>
      match res with
      | inr errTrip =>
          if is_ErrNoRows errTrip then
            Ret (GetTripsTripIDConfirmJSON400Response
                   (mkError "trip not found"))
          else
            log_then "failed to get trip" errTrip "trip_id" tripID
              (Ret (GetTripsTripIDConfirmJSON400Response
                      (mkError "something went wrong, try again")))
      | inl _ =>
          Do (ConfirmParticipant tripUUID) (fun err =>
          match err with
          | Some _ =>
              Ret (GetTripsTripIDConfirmJSON400Response
                     (mkError "failed to confirm participant, try again"))
          | None =>
              Go (send_invitations_task tripUUID)
                 (Ret GetTripsTripIDConfirmJSON204Response)
          end)
      end)
  end.

(** Invite someone to the trip.  (POST /trips/{tripId}/invites) *)
Definition PostTripsTripIDInvites (r : Request) (tripID : string)
  : prog Response :=
  match uuid_Parse lib tripID with
  | inr _ =>
      Ret (PostTripsTripIDInvitesJSON400Response (mkError "invalid uuid"))
  | inl id =>
      Do (GetTrip id) (fun res =>
      match res with
      | inr errTrip =>
          if is_ErrNoRows errTrip then
            Ret (PostTripsTripIDInvitesJSON400Response
                   (mkError "trip not found"))
          else
            log_then "failed to get trip" errTrip "trip_id" tripID
              (Ret (PostTripsTripIDInvitesJSON400Response
                      (mkError "something went wrong, try again")))
      | inl _ =>
          let '(body, errJson) :=
            decode_InviteParticipantRequest lib (req_Body r) in
          match validate_InviteParticipantRequest lib body with
          | Some errVal =>
              Ret (PostTripsTripIDInvitesJSON400Response
                     (mkError ("invalid input: " ++ error_Error errVal)%string))
          | None =>
              Do PoolBegin (fun res =>
              match res with
              | inr _ =>
                  Ret (PostTripsTripIDInvitesJSON400Response
                         (mkError "pgstore: failed to begin tx for PostTripsTripIDInvites"))
              | inl tx =>
                  defer (Do (TxRollback tx) (fun _ => Ret tt))
                    (let participants :=
                       Some [ {| inv_TripID := id;
                                 inv_Email := ipr_Email body |} ] in
                     Do (InviteParticipantsToTrip tx participants) (fun res =>
                     match res with
                     | inr _ =>
                         Ret (PostTripsTripIDInvitesJSON400Response
                                (mkError "pgstore: failed to insert participants for PostTripsTripIDInvites"))
                     | inl _ =>
                         Do (TxCommit tx) (fun errCom =>
                         match errCom with
                         | Some _ =>
                             Ret (PostTripsTripIDInvitesJSON400Response
                                    (mkError "pgstore: failed to commit tx for PostTripsTripIDInvites"))
                         | None => Ret PostTripsTripIDInvitesJSON201Response
                         end)
                     end))
              end)
          end
      end)
  end.
End Handlers.

(** ** An in-memory store, pool, mailer and logger *)

(** Modelled from the spec: the state of the Persistence Gateway
    ([internal/pgstore] and the connection pool behind it) and of the
    Notifier, whose code the handlers only call.  The gateway keeps the
    rows of section 3 and the units of work that are open, each with the
    rows it has staged.  Any call may also fail for a reason of the
    environment: [faults] lists, call by call, whether the next gateway
    call fails and with which error, and [mail_faults] does so for the
    notifier; [sent] and [logs] record the dispatches made and the errors
    logged. *)
Record World := mkWorld {
  trips : list Trip;
  participants : list Participant;
  activities : list Activity;
  txs : list (Tx * list Participant);
  next_tx : Tx;
  next_id : UUID;
  faults : list (option error);
  mail_faults : list (option error);
  sent : list UUID;
  logs : list (string * error * string * string)
}.

Definition set_trips (v : list Trip) (w : World) : World :=
  mkWorld v (participants w) (activities w) (txs w) (next_tx w) (next_id w)
          (faults w) (mail_faults w) (sent w) (logs w).
Definition set_participants (v : list Participant) (w : World) : World :=
  mkWorld (trips w) v (activities w) (txs w) (next_tx w) (next_id w)
          (faults w) (mail_faults w) (sent w) (logs w).
Definition set_activities (v : list Activity) (w : World) : World :=
  mkWorld (trips w) (participants w) v (txs w) (next_tx w) (next_id w)
          (faults w) (mail_faults w) (sent w) (logs w).
Definition set_txs (v : list (Tx * list Participant)) (w : World) : World :=
  mkWorld (trips w) (participants w) (activities w) v (next_tx w) (next_id w)
          (faults w) (mail_faults w) (sent w) (logs w).
Definition set_next_tx (v : Tx) (w : World) : World :=
  mkWorld (trips w) (participants w) (activities w) (txs w) v (next_id w)
          (faults w) (mail_faults w) (sent w) (logs w).
Definition set_next_id (v : UUID) (w : World) : World :=
  mkWorld (trips w) (participants w) (activities w) (txs w) (next_tx w) v
          (faults w) (mail_faults w) (sent w) (logs w).
Definition set_faults (v : list (option error)) (w : World) : World :=
  mkWorld (trips w) (participants w) (activities w) (txs w) (next_tx w)
          (next_id w) v (mail_faults w) (sent w) (logs w).
Definition set_mail_faults (v : list (option error)) (w : World) : World :=
  mkWorld (trips w) (participants w) (activities w) (txs w) (next_tx w)
          (next_id w) (faults w) v (sent w) (logs w).
Definition set_sent (v : list UUID) (w : World) : World :=
  mkWorld (trips w) (participants w) (activities w) (txs w) (next_tx w)
          (next_id w) (faults w) (mail_faults w) v (logs w).
Definition set_logs (v : list (string * error * string * string)) (w : World)
  : World :=
  mkWorld (trips w) (participants w) (activities w) (txs w) (next_tx w)
          (next_id w) (faults w) (mail_faults w) (sent w) v.

(** The fault, if any, of the next gateway call. *)
Definition next_fault (w : World) : option error :=
  match faults w with
  | Some e :: _ => Some e
  | _ => None
  end.

Definition pop_fault (w : World) : World := set_faults (tl (faults w)) w.

Definition next_mail_fault (w : World) : option error :=
  match mail_faults w with
  | Some e :: _ => Some e
  | _ => None
  end.

Definition pop_mail_fault (w : World) : World :=
  set_mail_faults (tl (mail_faults w)) w.

Definition find_trip (id : UUID) (w : World) : option Trip :=
  find (fun t => N.eqb (trip_ID t) id) (trips w).

Definition find_participant (id : UUID) (w : World) : option Participant :=
  find (fun p => N.eqb (part_ID p) id) (participants w).

Definition find_tx (tx : Tx) (w : World) : option (list Participant) :=
  option_map snd (find (fun e => Nat.eqb (fst e) tx) (txs w)).

Definition drop_tx (tx : Tx) (w : World) : World :=
  set_txs (filter (fun e => negb (Nat.eqb (fst e) tx)) (txs w)) w.

Definition confirm_row (id : UUID) (p : Participant) : Participant :=
  if N.eqb (part_ID p) id
  then mkParticipant (part_ID p) (part_TripID p) (part_Email p) true
  else p.

Definition update_row (arg : UpdateTripParams) (t : Trip) : Trip :=
  if N.eqb (trip_ID t) (utp_ID arg)
  then mkTrip (trip_ID t) (utp_Destination arg) (trip_OwnerEmail t)
              (trip_OwnerName t) (utp_IsConfirmed arg) (utp_StartsAt arg)
              (utp_EndsAt arg)
  else t.

(** Whether a row for this trip and e-mail is already there (the gateway
    keeps the pair unique). *)
Definition invited (tripID : UUID) (email : string) (ps : list Participant)
  : bool :=
  existsb (fun p => N.eqb (part_TripID p) tripID
                    && String.eqb (part_Email p) email) ps.

(** What the gateway holds and decides on: its rows, the open units of
    work, its counters and the faults to come. *)
Definition gateway (w : World) :=
  (trips w, participants w, activities w, txs w, next_tx w, next_id w,
   faults w).

(** Modelled from the spec: [invite(handle, tripId, emails)].  The rows
    of a batch are staged one after the other in the unit of work; a row
    whose trip and e-mail are already there (the gateway keeps the pair
    unique) stops the batch, the rows before it staying in the unit of
    work.  Gives whether the batch went through, the staged rows and the
    next fresh id. *)
Fixpoint stage_rows (durable : list Participant)
  (args : list InviteParticipantsToTripParams) (staged : list Participant)
  (next : UUID) : bool * list Participant * UUID :=
  match args with
  | [] => (true, staged, next)
  | a :: rest =>
      if invited (inv_TripID a) (inv_Email a) (durable ++ staged)
      then (false, staged, next)
      else stage_rows durable rest
             (staged ++ [mkParticipant next (inv_TripID a) (inv_Email a) false])
             (N.succ next)
  end.

Definition replace_tx (tx : Tx) (staged : list Participant) (w : World)
  : World :=
  set_txs ((tx, staged) :: txs (drop_tx tx w)) w.

(** Modelled from the spec: the operations of section 6.  [getTrip] and
    [getParticipant] fail with NotFound ([ErrNoRows]) on an absent id;
    [confirmParticipant(id)] sets the flag of the participant of that id
    and is [ok] also when no row has it; [updateTrip] overwrites the
    destination, the dates and the flag of the trip of that id;
    [getTripActivities] gives the activities of the trip in the order they
    are kept, [nil] when there is none; [commit] makes the staged rows of
    a unit of work durable together and closes it, [rollback] drops them;
    both fail with [ErrTxClosed] on a unit of work that is not open.  The
    notifier succeeds or fails as [mail_faults] says, and the logger
    appends to [logs]. *)
Definition mem : impl World := fun c =>
  match c return World -> ans c * World with
  | GetParticipant id => fun w =>
      match next_fault w with
      | Some e => (inr e, pop_fault w)
      | None =>
          (match find_participant id w with
           | Some p => inl p
           | None => inr ErrNoRows
           end, pop_fault w)
      end
  | ConfirmParticipant id => fun w =>
      match next_fault w with
      | Some e => (Some e, pop_fault w)
      | None =>
          (None, set_participants (map (confirm_row id) (participants w))
                   (pop_fault w))
      end
  | GetTrip id => fun w =>
      match next_fault w with
      | Some e => (inr e, pop_fault w)
      | None =>
          (match find_trip id w with
           | Some t => inl t
           | None => inr ErrNoRows
           end, pop_fault w)
      end
  | UpdateTrip arg => fun w =>
      match next_fault w with
      | Some e => (Some e, pop_fault w)
      | None => (None, set_trips (map (update_row arg) (trips w)) (pop_fault w))
      end
  | GetTripActivities tripID => fun w =>
      match next_fault w with
      | Some e => (inr e, pop_fault w)
      | None =>
          (match filter (fun a => N.eqb (act_TripID a) tripID) (activities w) with
           | [] => inl nil_slice
           | l => inl (Some l)
           end, pop_fault w)
      end
  | CreateActivity arg => fun w =>
      match next_fault w with
      | Some e => (inr e, pop_fault w)
      | None =>
          (inl (next_id w),
           set_next_id (N.succ (next_id w))
             (set_activities
                (activities w ++
                   [mkActivity (next_id w) (cap_TripID arg) (cap_Title arg)
                               (cap_OccursAt arg)])
                (pop_fault w)))
      end
  | PoolBegin => fun w =>
      match next_fault w with
      | Some e => (inr e, pop_fault w)
      | None =>
          (inl (next_tx w),
           set_next_tx (S (next_tx w))
             (set_txs ((next_tx w, []) :: txs w) (pop_fault w)))
      end
  | InviteParticipantsToTrip tx arg => fun w =>
      match next_fault w with
      | Some e => (inr e, pop_fault w)
      | None =>
          match find_tx tx w with
          | None => (inr ErrTxClosed, pop_fault w)
          | Some staged =>
              let '(ok, staged', next) :=
                stage_rows (participants w) (elems arg) staged (next_id w) in
              (if ok then inl (Z.of_nat (len arg))
               else inr (Err "duplicate key value violates unique constraint"),
               set_next_id next (replace_tx tx staged' (pop_fault w)))
          end
      end
  | TxCommit tx => fun w =>
      match next_fault w with
      | Some e => (Some e, pop_fault w)
      | None =>
          match find_tx tx w with
          | None => (Some ErrTxClosed, pop_fault w)
          | Some staged =>
              (None,
               drop_tx tx
                 (set_participants (participants w ++ staged) (pop_fault w)))
          end
      end
  | TxRollback tx => fun w =>
      match next_fault w with
      | Some e => (Some e, pop_fault w)
      | None =>
          match find_tx tx w with
          | None => (Some ErrTxClosed, pop_fault w)
          | Some _ => (None, drop_tx tx (pop_fault w))
          end
      end
  | SendEmailInvitations tripID => fun w =>
      match next_mail_fault w with
      | Some e => (Some e, pop_mail_fault w)
      | None => (None, set_sent (sent w ++ [tripID]) (pop_mail_fault w))
      end
  | LoggerError msg err key value => fun w =>
      (tt, set_logs (logs w ++ [(msg, err, key, value)]) w)
  end.

(** ** Validation rules and test doubles *)

(** Modelled from the spec: the [validate] tags of
    [spec.UpdateTripRequest] (package [internal/api/spec]), of which
    sections 7 and 8 say that a malformed date range is a
    [ValidationFailed] and that an [endsAt] earlier than [startsAt] is
    rejected before the gateway is reached. *)
Definition rejects_inverted_range (validate : UpdateTripRequest -> option error)
  : Prop :=
  forall b, (utr_EndsAt b < utr_StartsAt b)%Z -> validate b <> None.

Definition check_date_range (b : UpdateTripRequest) : option error :=
  if Z.ltb (utr_EndsAt b) (utr_StartsAt b)
  then Some (Err "Key: 'UpdateTripRequest.EndsAt' Error:Field validation")
  else None.

(** Stand-ins for the library functions: ids are written in decimal, and
    the raw body is taken for the destination or the e-mail, an empty
    body being a decoding error; [dates] is what the decoder reads for
    [(starts_at, ends_at)]. *)
Definition stub_uuid_Parse (s : string) : UUID + error :=
  match s with
  | "1" => inl 1%N
  | "2" => inl 2%N
  | "3" => inl 3%N
  | _ => inr (Err "invalid UUID format")
  end.

Definition stub_uuid_String (id : UUID) : string :=
  match id with
  | 1%N => "1"
  | 2%N => "2"
  | 3%N => "3"
  | _ => "n"
  end.

Definition stub_lib (dates : Time * Time) : Libs :=
  {| uuid_Parse := stub_uuid_Parse;
     uuid_String := stub_uuid_String;
     decode_UpdateTripRequest := fun raw =>
       match raw with
       | "" => (zero_UpdateTripRequest, Some (Err "EOF"))
       | _ => (mkUpdateTripRequest raw (snd dates) (fst dates), None)
       end;
     decode_InviteParticipantRequest := fun raw =>
       match raw with
       | "" => (zero_InviteParticipantRequest, Some (Err "EOF"))
       | _ => (mkInviteParticipantRequest raw, None)
       end;
     validate_UpdateTripRequest := check_date_range;
     validate_InviteParticipantRequest := fun b =>
       match ipr_Email b with
       | "" => Some (Err "Key: 'Email' Error:Field validation")
       | _ => None
       end |}.

Definition lib0 : Libs := stub_lib (0, 0)%Z.

(** A store with one unconfirmed trip of id 1, its owner as participant 2
    (confirmed) and an invited participant 3 (not confirmed). *)
Definition lisbon : Trip :=
  mkTrip 1 "Lisbon" "ana@example.com" "Ana" false
         (mkTimestamp 100 true) (mkTimestamp 200 true).

Definition world0 : World :=
  {| trips := [lisbon];
     participants :=
       [mkParticipant 2 1 "ana@example.com" true;
        mkParticipant 3 1 "rui@example.com" false];
     activities := [];
     txs := [];
     next_tx := 0;
     next_id := 10;
     faults := [];
     mail_faults := [];
     sent := [];
     logs := [] |}.

(** The [i]-th activity of trip 1, at date [d] with title [t], and the
    activities of trip 1 with the given dates and titles, in this order. *)
Definition activity_at (i : nat) (d : Time) (t : string) : Activity :=
  mkActivity (N.of_nat (100 + i)) 1 t (mkTimestamp d true).

Definition acts_of (l : list (Time * string)) : list Activity :=
  map (fun '(i, (d, t)) => activity_at i d t)
      (combine (seq 0 (List.length l)) l).

Definition with_activities (l : list (Time * string)) (w : World) : World :=
  set_activities (acts_of l) w.

(** ** What the date grouping computes *)

(** A list of dates with each date equal to the one before it left out. *)
Fixpoint drop_repeats_after (prev : Time) (l : list Time) : list Time :=
  match l with
  | [] => []
  | a :: t =>
      if Z.eqb prev a then drop_repeats_after a t
      else a :: drop_repeats_after a t
  end.

Definition drop_repeats (l : list Time) : list Time :=
  match l with
  | [] => []
  | a :: t => a :: drop_repeats_after a t
  end.

(** The slice that appending the elements of [l] to [s] one by one
    leaves: [s] itself when there is none. *)
Definition extend {A : Type} (s : slice A) (l : list A) : slice A :=
  match l with
  | [] => s
  | _ => Some (elems s ++ l)
  end.

(** The elements that are at date [d], and the group of that date. *)
Definition at_date (d : Time) (a : GetTripActivitiesResponseInnerArray)
  : bool :=
  Z.eqb (inner_OccursAt a) d.

Definition group_of (ras : list GetTripActivitiesResponseInnerArray)
  (d : Time) : GetTripActivitiesResponseOuterArray :=
  {| outer_Activities := extend nil_slice (filter (at_date d) ras);
     outer_Date := d |}.

Definition date_of (a : Activity) : Time := ts_Time (act_OccursAt a).

(** ** Programs over any set of calls

    The handlers of trips, links and participants, and the mailer, call
    methods that the calls above do not list.  Programs, runs and the
    property of every call are the same over any set of calls [E] with
    answers [R]. *)
Section Programs.
Context {E : Type} (R : E -> Type).

Inductive gprog (A : Type) : Type :=
| GRet (a : A)
| GDo (e : E) (k : R e -> gprog A)
| GGo (task : gprog unit) (k : gprog A)
| GPanic (msg : string).

Record gran (W A : Type) : Type := mkGran {
  gout : outcome A;
  gfinal : W;
  gtrace : list E;
  gstarted : list (gprog unit)
}.

Definition gimpl (W : Type) : Type := forall e : E, W -> R e * W.

Fixpoint grun {W A : Type} (h : gimpl W) (p : gprog A) (w : W) : gran W A :=
  match p with
  | GRet _ a => mkGran _ _ (Returned a) w [] []
  | GDo _ e k =>
      let r := grun h (k (fst (h e w))) (snd (h e w)) in
      mkGran _ _ (gout _ _ r) (gfinal _ _ r) (e :: gtrace _ _ r)
             (gstarted _ _ r)
  | GGo _ t k =>
      let r := grun h k w in
      mkGran _ _ (gout _ _ r) (gfinal _ _ r) (gtrace _ _ r)
             (t :: gstarted _ _ r)
  | GPanic _ m => mkGran _ _ (Panicked m) w [] []
  end.

Inductive gcalls_only (P : E -> Prop) : forall {A : Type}, gprog A -> Prop :=
| gco_Ret A (a : A) : gcalls_only P (GRet A a)
| gco_Do A e (k : R e -> gprog A) :
    P e -> (forall x, gcalls_only P (k x)) -> gcalls_only P (GDo A e k)
| gco_Go A t (k : gprog A) :
    gcalls_only P t -> gcalls_only P k -> gcalls_only P (GGo A t k)
| gco_Panic A m : gcalls_only P (GPanic A m).
End Programs.

Arguments GRet {E R A} a.
Arguments GDo {E R A} e k.
Arguments GGo {E R A} task k.
Arguments GPanic {E R A} msg.
Arguments gout {E R W A} g.
Arguments gfinal {E R W A} g.
Arguments gtrace {E R W A} g.
Arguments gstarted {E R W A} g.
Arguments grun {E R W A} h p w.
Arguments gcalls_only {E R} P {A} p.

(** ** The handlers of trips, links and participants *)

(** Rows and parameters of the store ([pgstore]) for links. *)
Record Link := mkLink {
  link_ID : UUID;
  link_TripID : UUID;
  link_Title : string;
  link_Url : string
}.

Record CreateTripLinkParams := mkCreateTripLinkParams {
  ctl_TripID : UUID;
  ctl_Title : string;
  ctl_Url : string
}.

(** Modelled from the spec: the body of a trip creation request
    ([spec.CreateTripRequest]), with what [createTrip] of section 6
    takes.  [PostTrips] reads none of its fields: it hands the value to
    the validation and to the store whole. *)
Record CreateTripRequest := mkCreateTripRequest {
  ctr_Destination : string;
  ctr_OwnerName : string;
  ctr_OwnerEmail : string;
  ctr_StartsAt : Time;
  ctr_EndsAt : Time
}.

(** The body of [POST /trips/{tripId}/links], with the fields the handler
    reads. *)
Record CreateLinkRequest := mkCreateLinkRequest {
  clr_Title : string;
  clr_URL : string
}.

Definition zero_CreateTripRequest : CreateTripRequest :=
  mkCreateTripRequest "" "" "" zeroTime zeroTime.
Definition zero_CreateLinkRequest : CreateLinkRequest :=
  mkCreateLinkRequest "" "".

(** Response bodies, with the fields the handlers set. *)
Record GetTripDetailsResponseTripObj := mkTripObj {
  obj_Destination : string;
  obj_EndsAt : Time;
  obj_ID : string;
  obj_StartsAt : Time
}.

Record GetLinksResponseArray := mkLinkItem {
  li_ID : string;
  li_Title : string;
  li_URL : string
}.

(** An element of the participants response.  [Name] is a pointer in the
    source ([*string]); here it is the string the pointer leads to when
    the response is written out. *)
Record GetTripParticipantsResponseArray := mkPartItem {
  pi_Email : string;
  pi_ID : string;
  pi_IsConfirmed : bool;
  pi_Name : string
}.

Inductive payload2 :=
| ErrorBody2 (e : Error)
| CreateTripResponseBody (TripID : string)
| GetTripDetailsResponseBody (Trip : GetTripDetailsResponseTripObj)
| GetLinksResponseBody (Links : slice GetLinksResponseArray)
| CreateLinkResponseBody (LinkID : string)
| GetTripParticipantsResponseBody
    (Participants : slice GetTripParticipantsResponseArray).

Record Response2 := mkResponse2 { Code2 : Z; body2 : payload2 }.

Definition JSON400Response2 (e : Error) : Response2 :=
  mkResponse2 400 (ErrorBody2 e).

Definition PostTripsJSON400Response := JSON400Response2.
Definition PostTripsJSON201Response (TripID : string) : Response2 :=
  mkResponse2 201 (CreateTripResponseBody TripID).
Definition GetTripsTripIDJSON400Response := JSON400Response2.
Definition GetTripsTripIDJSON200Response
  (Trip : GetTripDetailsResponseTripObj) : Response2 :=
  mkResponse2 200 (GetTripDetailsResponseBody Trip).
Definition GetTripsTripIDLinksJSON400Response := JSON400Response2.
Definition GetTripsTripIDLinksJSON200Response
  (Links : slice GetLinksResponseArray) : Response2 :=
  mkResponse2 200 (GetLinksResponseBody Links).
Definition PostTripsTripIDLinksJSON400Response := JSON400Response2.
Definition PostTripsTripIDLinksJSON201Response (LinkID : string) : Response2 :=
  mkResponse2 201 (CreateLinkResponseBody LinkID).
Definition GetTripsTripIDParticipantsJSON400Response := JSON400Response2.
Definition GetTripsTripIDParticipantsJSON200Response
  (Participants : slice GetTripParticipantsResponseArray) : Response2 :=
  mkResponse2 200 (GetTripParticipantsResponseBody Participants).

(** The decoders and the validation of the two bodies above. *)
Record Libs2 := mkLibs2 {
  decode_CreateTripRequest : string -> CreateTripRequest * option error;
  decode_CreateLinkRequest : string -> CreateLinkRequest * option error;
  validate_CreateTripRequest : CreateTripRequest -> option error;
  validate_CreateLinkRequest : CreateLinkRequest -> option error
}.

(** The calls of these handlers: the calls above, and the other methods
    of the [store] and [mailer] interfaces.  [CreateTrip] is
    [api.store.CreateTrip(ctx, api.pool, body)]. *)
Inductive acall :=
| Base (c : call)
| CreateTrip (body : CreateTripRequest)
| GetTripLinks (tripID : UUID)
| CreateTripLink (arg : CreateTripLinkParams)
| GetParticipants (tripID : UUID)
| SendConfirmTripEmailToTripOwner (tripID : UUID).

Definition aans (c : acall) : Type :=
  match c with
  | Base c => ans c
  | CreateTrip _ => (UUID + error)%type
  | GetTripLinks _ => (slice Link + error)%type
  | CreateTripLink _ => (UUID + error)%type
  | GetParticipants _ => (slice Participant + error)%type
  | SendConfirmTripEmailToTripOwner _ => option error
  end.

Definition aprog (A : Type) : Type := gprog aans A.

Definition ADo {A : Type} (c : acall) (k : aans c -> aprog A) : aprog A :=
  GDo c k.

(** [for _, x := range s { acc = append(acc, f x) }] *)
Definition range_append {A B : Type} (f : A -> B) (s : slice A)
  (acc : slice B) : slice B :=
  fold_left (fun acc x => append acc (f x)) (elems s) acc.

(** *** The loop of [GetTripsTripIDParticipants]

    [for _, part := range parts { ... Name: &part.Email ... }] stores in
    each element the address of a field of the loop variable.  Before Go
    1.22 the loop has one variable [part], assigned at each iteration;
    from Go 1.22 on each iteration has a variable of its own
    ([per_iteration]).  The loop state holds the variables allocated so
    far with their contents and the elements appended, [ref_Name] being
    the address of a variable. *)
Record part_ref := mkPartRef {
  ref_Email : string;
  ref_ID : string;
  ref_IsConfirmed : bool;
  ref_Name : nat
}.

Definition parts_step (uuid_String : UUID -> string) (per_iteration : bool)
  (st : list Participant * slice part_ref) (part : Participant)
  : list Participant * slice part_ref :=
  let '(vars, responseParts) := st in
  let addr := if per_iteration then List.length vars else 0 in
  let vars' := if per_iteration then vars ++ [part] else [part] in
  (vars',
   append responseParts
     {| ref_ID := uuid_String (part_ID part);
        ref_Email := part_Email part;
        ref_IsConfirmed := part_IsConfirmed part;
        ref_Name := addr |}).

(** The element as it is written out once the loop is over: the pointer
    is followed then. *)
Definition written (vars : list Participant) (e : part_ref)
  : GetTripParticipantsResponseArray :=
  {| pi_ID := ref_ID e;
     pi_Email := ref_Email e;
     pi_IsConfirmed := ref_IsConfirmed e;
     pi_Name := match nth_error vars (ref_Name e) with
                | Some v => part_Email v
                | None => ""
                end |}.

Definition responseParts_of (uuid_String : UUID -> string)
  (per_iteration : bool) (parts : slice Participant)
  : slice GetTripParticipantsResponseArray :=
  let '(vars, responseParts) :=
    fold_left (parts_step uuid_String per_iteration) (elems parts)
              ([], nil_slice) in
  option_map (map (written vars)) responseParts.

Section MoreHandlers.
Context (lib : Libs) (lib2 : Libs2).

Definition alog_then {A : Type} (msg : string) (err : error)
  (key value : string) (k : aprog A) : aprog A :=
  ADo (Base (LoggerError msg err key value)) (fun _ => k).

(** The goroutine of [PostTrips]. *)
Definition send_confirmation_task (tripID : UUID) : aprog unit :=
  ADo (SendConfirmTripEmailToTripOwner tripID) (fun err =>
  match err with
  | Some err =>
      alog_then "failed to send email on PostTrips" err
        "trip_id" (uuid_String lib tripID) (GRet tt)
  | None => GRet tt
  end).

(** Create a new trip.  (POST /trips)

    A decoding error builds a 400 response that is not returned. *)
Definition PostTrips (r : Request) : aprog Response2 :=
  let '(body, err) := decode_CreateTripRequest lib2 (req_Body r) in
  match validate_CreateTripRequest lib2 body with
  | Some err =>
      GRet (PostTripsJSON400Response
              (mkError ("invalid input: " ++ error_Error err)%string))
  | None =>
      ADo (CreateTrip body) (fun res =>
      match res with
      | inr _ =>
          GRet (PostTripsJSON400Response
                  (mkError "failed to create trip, try again"))
      | inl tripID =>
          GGo (send_confirmation_task tripID)
              (GRet (PostTripsJSON201Response (uuid_String lib tripID)))
      end)
  end.

(** Get a trip details.  (GET /trips/{tripId}) *)
Definition GetTripsTripID (r : Request) (tripID : string) : aprog Response2 :=
  match uuid_Parse lib tripID with
  | inr _ => GRet (GetTripsTripIDJSON400Response (mkError "invalid uuid"))
  | inl id =>
      ADo (Base (GetTrip id)) (fun res =>
      match res with
      | inr err =>
          if is_ErrNoRows err then
            GRet (GetTripsTripIDJSON400Response (mkError "trip not found"))
          else
            alog_then "failed to get trip" err "trip_id" tripID
              (GRet (GetTripsTripIDJSON400Response
                       (mkError "something went wrong, try again")))
      | inl trip =>
          let responseTrip :=
            {| obj_ID := uuid_String lib (trip_ID trip);
               obj_Destination := trip_Destination trip;
               obj_StartsAt := ts_Time (trip_StartsAt trip);
               obj_EndsAt := ts_Time (trip_EndsAt trip) |} in
          GRet (GetTripsTripIDJSON200Response responseTrip)
      end)
  end.

(** Get a trip links.  (GET /trips/{tripId}/links) *)
Definition GetTripsTripIDLinks (r : Request) (tripID : string)
  : aprog Response2 :=
  match uuid_Parse lib tripID with
  | inr _ => GRet (GetTripsTripIDLinksJSON400Response (mkError "invalid uuid"))
  | inl id =>
      ADo (Base (GetTrip id)) (fun res =>
      match res with
      | inr errTrip =>
          if is_ErrNoRows errTrip then
            GRet (GetTripsTripIDLinksJSON400Response (mkError "trip not found"))
          else
            alog_then "failed to get trip" errTrip "trip_id" tripID
              (GRet (GetTripsTripIDLinksJSON400Response
                       (mkError "something went wrong, try again")))
      | inl _ =>
          ADo (GetTripLinks id) (fun res =>
          match res with
          | inr _ =>
              GRet (GetTripsTripIDLinksJSON400Response
                      (mkError "links for found"))
          | inl links =>
              let responseLinks :=
                if Nat.eqb (len links) 0 then empty_slice else nil_slice in
              let responseLinks :=
                range_append
                  (fun link => {| li_ID := uuid_String lib (link_ID link);
                                  li_Title := link_Title link;
                                  li_URL := link_Url link |})
                  links responseLinks in
              GRet (GetTripsTripIDLinksJSON200Response responseLinks)
          end)
      end)
  end.

(** Create a trip link.  (POST /trips/{tripId}/links)

    Here a decoding error is returned. *)
Definition PostTripsTripIDLinks (r : Request) (tripID : string)
  : aprog Response2 :=
  match uuid_Parse lib tripID with
  | inr _ => GRet (PostTripsTripIDLinksJSON400Response (mkError "invalid uuid"))
  | inl id =>
      ADo (Base (GetTrip id)) (fun res =>
      match res with
      | inr errTrip =>
          if is_ErrNoRows errTrip then
            GRet (PostTripsTripIDLinksJSON400Response
                    (mkError "trip not found"))
          else
            alog_then "failed to get trip" errTrip "trip_id" tripID
              (GRet (PostTripsTripIDLinksJSON400Response
                       (mkError "something went wrong, try again")))
      | inl _ =>
          let '(body, errJson) :=
            decode_CreateLinkRequest lib2 (req_Body r) in
          match errJson with
          | Some errJson =>
              GRet (PostTripsTripIDLinksJSON400Response
                      (mkError ("invalid json: " ++ error_Error errJson)%string))
          | None =>
              match validate_CreateLinkRequest lib2 body with
              | Some errVal =>
                  GRet (PostTripsTripIDLinksJSON400Response
                          (mkError ("invalid input: " ++ error_Error errVal)%string))
              | None =>
                  ADo (CreateTripLink {| ctl_TripID := id;
                                         ctl_Title := clr_Title body;
                                         ctl_Url := clr_URL body |})
                      (fun res =>
                  match res with
                  | inr _ =>
                      GRet (PostTripsTripIDLinksJSON400Response
                              (mkError "fail to insert trip link"))
                  | inl uuid =>
                      GRet (PostTripsTripIDLinksJSON201Response
                              (uuid_String lib uuid))
                  end)
              end
          end
      end)
  end.

(** Get a trip participants.  (GET /trips/{tripId}/participants) *)
Definition GetTripsTripIDParticipants (per_iteration : bool)
  (r : Request) (tripID : string) : aprog Response2 :=
  match uuid_Parse lib tripID with
  | inr _ =>
      GRet (GetTripsTripIDParticipantsJSON400Response (mkError "invalid uuid"))
  | inl id =>
      ADo (Base (GetTrip id)) (fun res =>
      match res with
      | inr errTrip =>
          if is_ErrNoRows errTrip then
            GRet (GetTripsTripIDParticipantsJSON400Response
                    (mkError "trip not found"))
          else
            alog_then "failed to get trip" errTrip "trip_id" tripID
              (GRet (GetTripsTripIDParticipantsJSON400Response
                       (mkError "something went wrong, try again")))
      | inl _ =>
          ADo (GetParticipants id) (fun res =>
          match res with
          | inr _ =>
              GRet (GetTripsTripIDParticipantsJSON400Response
                      (mkError "fail to get trip participants"))
          | inl parts =>
              GRet (GetTripsTripIDParticipantsJSON200Response
                      (responseParts_of (uuid_String lib) per_iteration parts))
          end)
      end)
  end.
End MoreHandlers.

(** The calls that read the store or write to the log. *)
Definition reads_or_logs (c : call) : Prop :=
  match c with
  | GetParticipant _ | GetTrip _ | GetTripActivities _
  | LoggerError _ _ _ _ => True
  | _ => False
  end.

Definition areads_or_logs (c : acall) : Prop :=
  match c with
  | Base c => reads_or_logs c
  | GetTripLinks _ | GetParticipants _ => True
  | _ => False
  end.

(** The elements of the responses of links and participants. *)
Definition link_item (uuid_String : UUID -> string) (link : Link)
  : GetLinksResponseArray :=
  {| li_ID := uuid_String (link_ID link);
     li_Title := link_Title link;
     li_URL := link_Url link |}.

Definition part_item (uuid_String : UUID -> string) (name : string)
  (part : Participant) : GetTripParticipantsResponseArray :=
  {| pi_ID := uuid_String (part_ID part);
     pi_Email := part_Email part;
     pi_IsConfirmed := part_IsConfirmed part;
     pi_Name := name |}.

(** ** The mailer ([internal/mailer/mailpit])

    [Mailpit] calls its own [store] interface ([GetTrip] and
    [GetParticipants]) and the mail package: [msg.From], [msg.To],
    [mail.NewClient] (with the port policy [NoTLS]) and
    [client.DialAndSend], the message sent being known by its subject and
    its plain-text body. *)
Inductive mcall :=
| MGetTrip (id : UUID)
| MGetParticipants (tripID : UUID)
| MsgFrom (addr : string)
| MsgTo (addr : string)
| MailNewClient (host : string) (port : Z)
| ClientDialAndSend (subject body : string).

Definition mans (c : mcall) : Type :=
  match c with
  | MGetTrip _ => (Trip + error)%type
  | MGetParticipants _ => (slice Participant + error)%type
  | MsgFrom _ | MsgTo _ | MailNewClient _ _ | ClientDialAndSend _ _ =>
      option error
  end.

Definition mprog (A : Type) : Type := gprog mans A.

Definition MDo {A : Type} (c : mcall) (k : mans c -> mprog A) : mprog A :=
  GDo c k.

(** The error of an answer, if it is one. *)
Definition answer_error (c : mcall) : mans c -> option error :=
  match c return mans c -> option error with
  | MGetTrip _ => fun x => match x with inl _ => None | inr e => Some e end
  | MGetParticipants _ =>
      fun x => match x with inl _ => None | inr e => Some e end
  | MsgFrom _ | MsgTo _ | MailNewClient _ _ | ClientDialAndSend _ _ =>
      fun x => x
  end.

(** [fmt.Errorf(msg + ": %w", err)]: the message of the new error is
    [msg], a colon and the message of [err].  Only the message is kept:
    the handlers do nothing with the error of the mailer but log it. *)
Definition Errorf_w (msg : string) (err : error) : error :=
  Err (msg ++ ": " ++ error_Error err)%string.

(** The bytes of the bodies that are not ASCII letters. *)
Definition nl : string := String (ascii_of_nat 10) "".
Definition tab2 : string :=
  String (ascii_of_nat 9) (String (ascii_of_nat 9) "").
Definition a_acute : string :=
  String (ascii_of_nat 195) (String (ascii_of_nat 161) "").
Definition c_cedilla : string :=
  String (ascii_of_nat 195) (String (ascii_of_nat 167) "").
Definition a_tilde : string :=
  String (ascii_of_nat 195) (String (ascii_of_nat 163) "").

(** What both bodies end with, after the greeting:
    [fmt.Sprintf] of the format with the destination and the date. *)
Definition body_tail (destination date : string) : string :=
  (nl ++ nl ++ tab2 ++ "A sua viagem para " ++ destination
   ++ " que come" ++ c_cedilla ++ "a no dia " ++ date
   ++ " precisa ser confirmada." ++ nl ++ tab2
   ++ "Clique no bot" ++ a_tilde ++ "o abaixo para confirmar." ++ nl
   ++ tab2)%string.

Definition owner_body (name destination date : string) : string :=
  (nl ++ tab2 ++ "Ol" ++ a_acute ++ ", " ++ name ++ "!"
   ++ body_tail destination date)%string.

Definition invitation_body (destination date : string) : string :=
  (nl ++ tab2 ++ "Ol" ++ a_acute ++ "!" ++ body_tail destination date)%string.

Section Mailpit.
(** [t.Format(time.DateOnly)] *)
Context (Format_DateOnly : Time -> string).

(** The rest of both functions once the addresses are set: subject, body,
    client, sending. *)
Definition send_message (fn body : string) : mprog (option error) :=
  MDo (MailNewClient "localhost" 1025) (fun err =>
  match err with
  | Some err =>
      GRet (Some (Errorf_w ("mailpit: failed create email client " ++ fn) err))
  | None =>
      MDo (ClientDialAndSend "Confirme sua viagem" body) (fun err =>
      match err with
      | Some err =>
          GRet (Some (Errorf_w ("mailpit: failed send email client " ++ fn)
                               err))
      | None => GRet None
      end)
  end).

Definition SendConfirmTripEmailToTripOwner_mailpit (trupID : UUID)
  : mprog (option error) :=
  MDo (MGetTrip trupID) (fun res =>
  match res with
  | inr err =>
      GRet (Some (Errorf_w
        "mailpit: failed to get trip for SendConfirmTripEmailToTripOwner" err))
  | inl trip =>
      MDo (MsgFrom "mailpit@journey.com") (fun err =>
      match err with
      | Some err =>
          GRet (Some (Errorf_w
            "mailpit: failed to set 'From' in email SendConfirmTripEmailToTripOwner"
            err))
      | None =>
          MDo (MsgTo (trip_OwnerEmail trip)) (fun err =>
          match err with
          | Some err =>
              GRet (Some (Errorf_w
                "mailpit: failed to set 'to' in email SendConfirmTripEmailToTripOwner"
                err))
          | None =>
              send_message "SendConfirmTripEmailToTripOwner"
                (owner_body (trip_OwnerName trip) (trip_Destination trip)
                   (Format_DateOnly (ts_Time (trip_StartsAt trip))))
          end)
      end)
  end).

(** [for _, part := range participants { if err := msg.To(part.Email);
    err != nil { return ... } }], then the rest [k]. *)
Fixpoint to_each (participants : list Participant)
  (k : mprog (option error)) : mprog (option error) :=
  match participants with
  | [] => k
  | part :: rest =>
      MDo (MsgTo (part_Email part)) (fun err =>
      match err with
      | Some err =>
          GRet (Some (Errorf_w
            "mailpit: failed to set 'to' in email SendEmailInvitations" err))
      | None => to_each rest k
      end)
  end.

Definition SendEmailInvitations_mailpit (trupID : UUID)
  : mprog (option error) :=
  MDo (MGetTrip trupID) (fun res =>
  match res with
  | inr err =>
      GRet (Some (Errorf_w
        "mailpit: failed to get trip for SendEmailInvitations" err))
  | inl trip =>
      MDo (MGetParticipants trupID) (fun res =>
      match res with
      | inr err =>
          GRet (Some (Errorf_w
            "mailpit: failed to get trip for SendEmailInvitations" err))
      | inl participants =>
          MDo (MsgFrom "mailpit@journey.com") (fun err =>
          match err with
          | Some err =>
              GRet (Some (Errorf_w
                "mailpit: failed to set 'From' in email SendEmailInvitations"
                err))
          | None =>
              to_each (elems participants)
                (send_message "SendEmailInvitations"
                   (invitation_body (trip_Destination trip)
                      (Format_DateOnly (ts_Time (trip_StartsAt trip)))))
          end)
      end)
  end).
End Mailpit.

(** An implementation whose answers do not depend on what was called
    before. *)
Definition by_oracle {E : Type} {R : E -> Type} (a : forall e, R e)
  : gimpl R unit :=
  fun e w => (a e, w).

(** A run of the mailer against an oracle is well stopped: every call
    before the last has succeeded; a [nil] result comes after a last call
    that succeeded too, and an error result wraps the error of the last
    call. *)
Definition succeeded (a : forall c, mans c) (c : mcall) : Prop :=
  answer_error c (a c) = None.

Definition well_stopped (a : forall c, mans c)
  (res : gran mans unit (option error)) : Prop :=
  match gout res with
  | Returned None => Forall (succeeded a) (gtrace res)
  | Returned (Some e) =>
      exists pre c ctx cause,
        gtrace res = pre ++ [c]
        /\ Forall (succeeded a) pre
        /\ answer_error c (a c) = Some cause
        /\ e = Errorf_w ctx cause
  | Panicked _ => False
  end.

(** ** More test doubles *)

Definition stub_lib2 : Libs2 :=
  {| decode_CreateTripRequest := fun raw =>
       match raw with
       | "" => (zero_CreateTripRequest, Some (Err "EOF"))
       | _ => (mkCreateTripRequest raw "Ana" "ana@example.com" 100 200, None)
       end;
     decode_CreateLinkRequest := fun raw =>
       match raw with
       | "" => (zero_CreateLinkRequest, Some (Err "EOF"))
       | _ => (mkCreateLinkRequest "Booking" raw, None)
       end;
     validate_CreateTripRequest := fun b =>
       match ctr_Destination b with
       | "" => Some (Err "Key: 'Destination' Error:Field validation")
       | _ => None
       end;
     validate_CreateLinkRequest := fun b =>
       match clr_URL b with
       | "" => Some (Err "Key: 'URL' Error:Field validation")
       | _ => None
       end |}.

Definition two_links : slice Link :=
  Some [mkLink 20 1 "Booking" "https://example.com/booking";
        mkLink 21 1 "Map" "https://example.com/map"].

(** Collaborators that always succeed, on the rows of [world0]. *)
Definition base_ok (c : call) : ans c :=
  match c return ans c with
  | GetParticipant id => inl (mkParticipant id 1 "rui@example.com" false)
  | ConfirmParticipant _ => None
  | GetTrip _ => inl lisbon
  | UpdateTrip _ => None
  | GetTripActivities _ => inl nil_slice
  | CreateActivity _ => inl 10%N
  | PoolBegin => inl 0
  | InviteParticipantsToTrip _ arg => inl (Z.of_nat (len arg))
  | TxCommit _ => None
  | TxRollback _ => None
  | SendEmailInvitations _ => None
  | LoggerError _ _ _ _ => tt
  end.

Definition api_ok (c : acall) : aans c :=
  match c return aans c with
  | Base c => base_ok c
  | CreateTrip _ => inl 1%N
  | GetTripLinks _ => inl two_links
  | CreateTripLink _ => inl 22%N
  | GetParticipants _ => inl (Some (participants world0))
  | SendConfirmTripEmailToTripOwner _ => None
  end.

Definition mail_ok (c : mcall) : mans c :=
  match c return mans c with
  | MGetTrip _ => inl lisbon
  | MGetParticipants _ => inl (Some (participants world0))
  | MsgFrom _ => None
  | MsgTo _ => None
  | MailNewClient _ _ => None
  | ClientDialAndSend _ _ => None
  end.

Definition stub_Format_DateOnly (t : Time) : string := "0001-01-01".

Definition two_days : slice Activity :=
  Some (acts_of [(10, "x"); (20, "y")]%Z).

Definition two_days_groups : slice GetTripActivitiesResponseOuterArray :=
  Some (map (fun a => {| outer_Activities := Some [inner_of lib0 a];
                         outer_Date := date_of a |})
            (elems two_days)).

(** * Properties *)

(** ** Programs and runs *)

Lemma calls_only_trace {W A : Type} (P : call -> Prop) (h : impl W)
  (p : prog A) :
  calls_only P p -> forall w, Forall P (trace (run h p w)).
Proof.
  induction 1; intros w; simpl; auto.
Qed.

Lemma calls_only_started {W A : Type} (h : impl W) (P : call -> Prop)
  (p : prog A) :
  calls_only P p -> forall w, Forall (calls_only P) (started (run h p w)).
Proof.
  induction 1; intros w; simpl; auto.
Qed.

Lemma calls_only_tasks_trace {W : Type} (P : call -> Prop) (h : impl W)
  (ts : list (prog unit)) :
  Forall (calls_only P) ts -> forall w, Forall P (snd (run_tasks h ts w)).
Proof.
  induction 1 as [|t ts Ht _ IH]; intros w; simpl; auto.
  specialize (IH (final (run h t w))).
  destruct (run_tasks h ts (final (run h t w))) as [w' tr]. simpl in *.
  apply Forall_app. split; [apply calls_only_trace; exact Ht | exact IH].
Qed.

Lemma calls_only_trace_detached {W A : Type} (P : call -> Prop) (h : impl W)
  (p : prog A) :
  calls_only P p -> forall w, Forall P (trace (run_detached h p w)).
Proof.
  intros Hp w. unfold run_detached.
  pose proof (calls_only_tasks_trace P h (started (run h p w))
                (calls_only_started h P p Hp w) (final (run h p w))) as Ht.
  destruct (run_tasks h (started (run h p w)) (final (run h p w))) as [w' tr].
  simpl in *. apply Forall_app. split; [apply calls_only_trace; exact Hp | exact Ht].
Qed.

Lemma run_invariant {W A : Type} (h : impl W) (P : call -> Prop)
  (I : W -> W -> Prop) :
  (forall w, I w w) ->
  (forall w1 w2 w3, I w1 w2 -> I w2 w3 -> I w1 w3) ->
  (forall c w, P c -> I w (snd (h c w))) ->
  forall p : prog A, calls_only P p -> forall w, I w (final (run h p w)).
Proof.
  intros Hrefl Htrans Hstep p Hp.
  induction Hp; intros w; simpl; auto.
  apply (Htrans _ (snd (h c w))); [apply Hstep; assumption | auto].
Qed.

Lemma run_inline_invariant {W A : Type} (h : impl W) (P : call -> Prop)
  (I : W -> W -> Prop) :
  (forall w, I w w) ->
  (forall w1 w2 w3, I w1 w2 -> I w2 w3 -> I w1 w3) ->
  (forall c w, P c -> I w (snd (h c w))) ->
  forall p : prog A, calls_only P p -> forall w, I w (final (run_inline h p w)).
Proof.
  intros Hrefl Htrans Hstep p Hp.
  induction Hp; intros w; simpl; auto.
  - apply (Htrans _ (snd (h c w))); [apply Hstep; assumption | auto].
  - apply (Htrans _ (final (run_inline h t w))); auto.
Qed.

Lemma run_tasks_invariant {W : Type} (h : impl W) (P : call -> Prop)
  (I : W -> W -> Prop) :
  (forall w, I w w) ->
  (forall w1 w2 w3, I w1 w2 -> I w2 w3 -> I w1 w3) ->
  (forall c w, P c -> I w (snd (h c w))) ->
  forall ts, Forall (calls_only P) ts ->
  forall w, I w (fst (run_tasks h ts w)).
Proof.
  intros Hrefl Htrans Hstep ts Hts.
  induction Hts as [|t ts Ht _ IH]; intros w; simpl; auto.
  destruct (run_tasks h ts (final (run h t w))) as [w' tr] eqn:E. simpl.
  apply (Htrans _ (final (run h t w))).
  - apply (run_invariant h P I); auto.
  - specialize (IH (final (run h t w))). rewrite E in IH. exact IH.
Qed.

Lemma run_detached_invariant {W A : Type} (h : impl W) (P : call -> Prop)
  (I : W -> W -> Prop) :
  (forall w, I w w) ->
  (forall w1 w2 w3, I w1 w2 -> I w2 w3 -> I w1 w3) ->
  (forall c w, P c -> I w (snd (h c w))) ->
  forall p : prog A, calls_only P p ->
  forall w, I w (final (run_detached h p w)).
Proof.
  intros Hrefl Htrans Hstep p Hp w. unfold run_detached.
  pose proof (run_tasks_invariant h P I Hrefl Htrans Hstep
                (started (run h p w)) (calls_only_started h P p Hp w)
                (final (run h p w))) as Ht.
  destruct (run_tasks h (started (run h p w)) (final (run h p w))) as [w' tr].
  simpl in *. apply (Htrans _ (final (run h p w))); [|exact Ht].
  apply (run_invariant h P I); auto.
Qed.

Lemma run_detached_out {W A : Type} (h : impl W) (p : prog A) (w : W) :
  out (run_detached h p w) = out (run h p w).
Proof.
  unfold run_detached.
  destruct (run_tasks h (started (run h p w)) (final (run h p w))).
  reflexivity.
Qed.

(** ** The in-memory store: what each call leaves alone, what it gives *)

Ltac break_match :=
  repeat match goal with
         | |- context [match ?x with _ => _ end] => destruct x; simpl
         end.

Lemma mem_trips (c : call) (w : World) :
  ~ is_UpdateTrip c -> trips (snd (mem c w)) = trips w.
Proof.
  destruct c; simpl; intros Hc; try (exfalso; apply Hc; exact I);
    break_match; reflexivity.
Qed.

Lemma mem_participants (c : call) (w : World) :
  match c with
  | ConfirmParticipant _ | TxCommit _ => False
  | _ => True
  end ->
  participants (snd (mem c w)) = participants w.
Proof.
  destruct c; simpl; intros Hc; try contradiction; break_match; reflexivity.
Qed.

Lemma mem_commit_failed (tx : Tx) (w : World) (e : error) :
  fst (mem (TxCommit tx) w) = Some e ->
  participants (snd (mem (TxCommit tx) w)) = participants w.
Proof.
  simpl. destruct (next_fault w); simpl; [reflexivity|].
  destruct (find_tx tx w); simpl; [discriminate | reflexivity].
Qed.

Lemma mem_gateway_mail (c : call) (w : World) :
  mailer_or_logger c -> gateway (snd (mem c w)) = gateway w.
Proof.
  destruct c; simpl; intros [Hc|Hc]; try contradiction; break_match;
    reflexivity.
Qed.

Lemma mem_gateway (c : call) (w1 w2 : World) :
  ~ is_SendEmailInvitations c ->
  gateway w1 = gateway w2 ->
  fst (mem c w1) = fst (mem c w2)
  /\ gateway (snd (mem c w1)) = gateway (snd (mem c w2)).
Proof.
  intros Hc Hg. unfold gateway in Hg.
  injection Hg as Ht Hp Ha Hx Hnt Hni Hf.
  destruct c; simpl in Hc; try (exfalso; apply Hc; exact I); simpl;
    unfold next_fault, find_trip, find_participant, find_tx, gateway,
           pop_fault, replace_tx, drop_tx;
    simpl; rewrite ?Ht, ?Hp, ?Ha, ?Hx, ?Hnt, ?Hni, ?Hf;
    break_match; rewrite ?Ht, ?Hp, ?Ha, ?Hx, ?Hnt, ?Hni, ?Hf; auto.
Qed.

Lemma mem_begin_ok (w : World) (tx : Tx) :
  fst (mem PoolBegin w) = inl tx ->
  tx = next_tx w
  /\ snd (mem PoolBegin w)
     = set_next_tx (S tx) (set_txs ((tx, []) :: txs w) (pop_fault w)).
Proof.
  simpl. destruct (next_fault w); simpl; [discriminate|].
  intros H. injection H as <-. split; reflexivity.
Qed.

Lemma mem_invite_one_ok (w : World) (tx : Tx) (staged : list Participant)
  (a : InviteParticipantsToTripParams) (n : Z) :
  find_tx tx w = Some staged ->
  fst (mem (InviteParticipantsToTrip tx (Some [a])) w) = inl n ->
  snd (mem (InviteParticipantsToTrip tx (Some [a])) w)
  = set_next_id (N.succ (next_id w))
      (replace_tx tx
         (staged ++ [mkParticipant (next_id w) (inv_TripID a) (inv_Email a) false])
         (pop_fault w)).
Proof.
  intros Hf. simpl. destruct (next_fault w); simpl; [discriminate|].
  rewrite Hf. simpl.
  destruct (invited (inv_TripID a) (inv_Email a) (participants w ++ staged));
    simpl; [discriminate | reflexivity].
Qed.

Lemma mem_commit_ok (w : World) (tx : Tx) :
  fst (mem (TxCommit tx) w) = None ->
  exists staged,
    find_tx tx w = Some staged
    /\ participants (snd (mem (TxCommit tx) w)) = participants w ++ staged.
Proof.
  simpl. destruct (next_fault w); simpl; [discriminate|].
  destruct (find_tx tx w) as [staged|]; simpl; [|discriminate].
  intros _. exists staged. split; reflexivity.
Qed.

(** A program that leaves the mailer to its goroutines gives the same
    outcome, and leaves the gateway the same, whether its goroutines are
    run where they are started or not at all, and whatever the mailer
    answers. *)
Lemma mail_detached_schedules {A : Type} (p : prog A) :
  mail_detached p ->
  forall w1 w2,
    gateway w1 = gateway w2 ->
    out (run_inline mem p w1) = out (run mem p w2)
    /\ gateway (final (run_inline mem p w1)) = gateway (final (run mem p w2)).
Proof.
  induction 1 as [A a | A c k Hc Hk IH | A t k Ht Hk IH | A m];
    intros w1 w2 Hg; simpl; auto.
  - destruct (mem_gateway c w1 w2 Hc Hg) as [Hans Hg'].
    rewrite Hans. apply IH. exact Hg'.
  - apply IH. rewrite <- Hg.
    apply (run_inline_invariant mem mailer_or_logger
             (fun w w' => gateway w' = gateway w)); auto.
    + intros; congruence.
    + intros c w Hc. apply mem_gateway_mail. exact Hc.
Qed.

(** ** Loops *)

Lemma for_loop_total {St : Type} (body : nat -> St -> option St) :
  forall n i s,
    (forall j s', i <= j < i + n -> body j s' <> None) ->
    for_loop i n body s <> None.
Proof.
  induction n as [|n IH]; intros i s Hbody; simpl.
  - discriminate.
  - destruct (body i s) as [s'|] eqn:E.
    + apply IH. intros j s'' Hj. apply Hbody. lia.
    + exfalso. apply (Hbody i s); [lia | exact E].
Qed.

Lemma skipn_cons_nth {A : Type} (l : list A) :
  forall j a rest,
    skipn j l = a :: rest -> nth_error l j = Some a /\ skipn (S j) l = rest.
Proof.
  induction l as [|x l IH]; intros j a rest H.
  - destruct j; discriminate.
  - destruct j as [|j]; simpl in *.
    + inversion H; subst. split; reflexivity.
    + apply IH. exact H.
Qed.

Lemma nth_error_snoc {A : Type} (l : list A) (x : A) :
  nth_error (l ++ [x]) (List.length l) = Some x.
Proof.
  rewrite nth_error_app2 by lia. rewrite Nat.sub_diag. reflexivity.
Qed.

(** ** The first loop: the projection never panics *)

Section AggregationFacts.
Context (lib : Libs).

Lemma responseActs_loop (acts : slice Activity) :
  forall rest i s,
    skipn i (elems acts) = rest ->
    exists s',
      for_loop i (List.length rest)
        (fun i responseActs =>
           match index acts i with
           | Some a => Some (append responseActs (inner_of lib a))
           | None => None
           end) s = Some s'
      /\ elems s' = elems s ++ map (inner_of lib) rest
      /\ (rest = [] -> s' = s).
Proof.
  induction rest as [|a rest IH]; intros i s Hskip; simpl.
  - exists s. rewrite app_nil_r. auto.
  - destruct (skipn_cons_nth _ _ _ _ Hskip) as [Hnth Hskip'].
    unfold index at 1. rewrite Hnth.
    destruct (IH (S i) (append s (inner_of lib a)) Hskip') as (s' & Hs' & He & _).
    exists s'. split; [exact Hs'|]. split; [|discriminate].
    rewrite He. simpl. rewrite <- app_assoc. reflexivity.
Qed.

Lemma responseActs_of_spec (acts : slice Activity) :
  exists ra, responseActs_of lib acts = Some ra
             /\ elems ra = map (inner_of lib) (elems acts)
             /\ (elems acts = [] -> ra = nil_slice).
Proof.
  destruct (responseActs_loop acts (elems acts) 0 nil_slice eq_refl)
    as (s' & Hs' & He & Hnil).
  exists s'. split; [exact Hs'|]. split; [exact He | exact Hnil].
Qed.
End AggregationFacts.

(** ** The second loop: when the date scan panics *)

Lemma early_repeat_cons (a b : Time) (t : list Time) :
  early_repeat (a :: b :: t) =
  match t with
  | [] => false
  | _ :: _ => Z.eqb a b || early_repeat (b :: t)
  end.
Proof. destruct t; reflexivity. Qed.

Section DateScan.
Variable ra : slice GetTripActivitiesResponseInnerArray.

Lemma scan_from :
  forall rest j ds dprev,
    skipn (S j) (elems ra) = rest ->
    len ds = S j ->
    index ds j = Some dprev ->
    (for_loop (S j) (List.length rest) (dates_step ra) ds = None <->
     early_repeat (dprev :: map inner_OccursAt rest) = true).
Proof.
  induction rest as [|a rest IH]; intros j ds dprev Hskip Hlen Hprev.
  - simpl. split; discriminate.
  - destruct (skipn_cons_nth _ _ _ _ Hskip) as [Hnth Hskip'].
    simpl for_loop. unfold dates_step at 1. simpl Nat.eqb.
    rewrite Nat.sub_1_r. simpl Nat.pred.
    rewrite Hprev. unfold index at 1. rewrite Hnth.
    simpl map. rewrite early_repeat_cons.
    destruct (Z.eqb dprev (inner_OccursAt a)) eqn:E; simpl negb; cbv iota.
    + (* the date repeats: nothing is appended *)
      destruct rest as [|b rest].
      * simpl. split; discriminate.
      * simpl for_loop. unfold dates_step at 1. simpl Nat.eqb.
        rewrite Nat.sub_1_r. simpl Nat.pred.
        assert (Hout : index ds (S j) = None).
        { unfold index. apply nth_error_None. unfold len in Hlen. lia. }
        rewrite Hout. split; reflexivity.
    + (* a new date is appended *)
      assert (Hlen' : len (append ds (inner_OccursAt a)) = S (S j)).
      { unfold len, append in *. simpl. rewrite length_app. simpl. lia. }
      assert (Hprev' : index (append ds (inner_OccursAt a)) (S j)
                       = Some (inner_OccursAt a)).
      { unfold index, append. cbn [elems]. unfold len in Hlen. rewrite <- Hlen.
        apply nth_error_snoc. }
      rewrite (IH (S j) _ _ Hskip' Hlen' Hprev').
      destruct rest as [|b rest]; simpl; [split; discriminate | reflexivity].
Qed.

Lemma responseActsDates_of_None_iff :
  responseActsDates_of ra = None <->
  early_repeat (map inner_OccursAt (elems ra)) = true.
Proof.
  unfold responseActsDates_of, len.
  destruct (elems ra) as [|a rest] eqn:El.
  - simpl. split; discriminate.
  - simpl for_loop. unfold dates_step at 1. simpl Nat.eqb. unfold index at 1.
    rewrite El. simpl nth_error. cbv iota.
    apply scan_from.
    + rewrite El. reflexivity.
    + reflexivity.
    + reflexivity.
Qed.
End DateScan.

Lemma early_repeat_iff (l : list Time) :
  early_repeat l = true <->
  exists j d, nth_error l j = Some d /\ nth_error l (S j) = Some d
              /\ S (S j) < List.length l.
Proof.
  induction l as [|a t IH].
  - simpl. split; [discriminate | intros (j & d & H & _); destruct j; discriminate].
  - destruct t as [|b t].
    + simpl. split; [discriminate|].
      intros (j & d & _ & _ & H). simpl in H. lia.
    + rewrite early_repeat_cons. destruct t as [|c t].
      * split; [discriminate|]. intros (j & d & _ & _ & H). simpl in H. lia.
      * rewrite orb_true_iff, IH. split.
        -- intros [E | (j & d & H1 & H2 & H3)].
           ++ apply Z.eqb_eq in E. subst b. exists 0, a. simpl.
              repeat split; lia.
           ++ exists (S j), d. simpl in *. repeat split; auto; lia.
        -- intros (j & d & H1 & H2 & H3). destruct j as [|j].
           ++ simpl in H1, H2. left. apply Z.eqb_eq. congruence.
           ++ right. exists j, d. simpl in *. repeat split; auto; lia.
Qed.

(** ** The third loop never panics *)

Section Grouping.
Context (lib : Libs).

Lemma index_in_range {A : Type} (s : slice A) (i : nat) :
  i < len s -> index s i <> None.
Proof. intros H. unfold index. apply nth_error_Some. exact H. Qed.

Lemma actsInner_of_total ra dates x :
  x < len dates -> actsInner_of ra dates x <> None.
Proof.
  intros Hx. unfold actsInner_of. apply for_loop_total.
  intros y s Hy.
  destruct (index ra y) eqn:Ey;
    [|exfalso; revert Ey; apply index_in_range; lia].
  destruct (index dates x) eqn:Ex;
    [|exfalso; revert Ex; apply index_in_range; lia].
  destruct (Z.eqb _ _); discriminate.
Qed.

Lemma responseActsFinal_of_total ra dates init :
  responseActsFinal_of ra dates init <> None.
Proof.
  unfold responseActsFinal_of. apply for_loop_total.
  intros x s Hx.
  destruct (actsInner_of ra dates x) eqn:Ea;
    [|exfalso; revert Ea; apply actsInner_of_total; lia].
  destruct (index dates x) eqn:Ex;
    [|exfalso; revert Ex; apply index_in_range; lia].
  discriminate.
Qed.

Lemma group_by_date_None (guard : bool) (acts : slice Activity) :
  group_by_date lib guard acts = None <->
  early_repeat (map (fun a => ts_Time (act_OccursAt a)) (elems acts)) = true.
Proof.
  unfold group_by_date.
  destruct (responseActs_of_spec lib acts) as (ra & Hra & Hel & _).
  rewrite Hra.
  assert (Hd : map inner_OccursAt (elems ra)
               = map (fun a => ts_Time (act_OccursAt a)) (elems acts)).
  { rewrite Hel, map_map. reflexivity. }
  rewrite <- Hd, <- responseActsDates_of_None_iff.
  destruct (responseActsDates_of ra) as [dates|]; [|split; reflexivity].
  split; [|discriminate].
  intros H. exfalso. revert H. apply responseActsFinal_of_total.
Qed.
End Grouping.

(** ** GetTripsTripIDActivities *)

Section Activities.
Context (lib : Libs).

Lemma GetTripsTripIDActivities_out {W : Type} (h : impl W) (w : W)
  (guard : bool) (r : Request) (tripID : string) (id : UUID)
  (acts : slice Activity) :
  uuid_Parse lib tripID = inl id ->
  fst (h (GetTripActivities id) w) = inl acts ->
  out (run h (GetTripsTripIDActivities_with lib guard r tripID) w) =
  match group_by_date lib guard acts with
  | None => Panicked "runtime error: index out of range"
  | Some responseActsFinal =>
      Returned (GetTripsTripIDActivitiesJSON200Response
                  (mkGetTripActivitiesResponse responseActsFinal))
  end.
Proof.
  intros Hid Hacts. unfold GetTripsTripIDActivities_with.
  rewrite Hid. cbn [run out]. rewrite Hacts.
  destruct (group_by_date lib guard acts); reflexivity.
Qed.

(** C5 (the claim fails on the code).  The claim says that the date scan
    only indexes in bounds, so that the handler panics on no list.  The
    grouping panics with an index out of range exactly when two
    activities next to each other have the same date and a further
    activity follows them: the scan compares with
    [responseActsDates[j-1]], and that slice is one short as soon as a
    date was not appended. *)
Theorem group_by_date_panics_iff (guard : bool) (acts : slice Activity) :
  group_by_date lib guard acts = None <->
  exists j a b,
    index acts j = Some a /\ index acts (S j) = Some b
    /\ ts_Time (act_OccursAt a) = ts_Time (act_OccursAt b)
    /\ S (S j) < len acts.
Proof.
  rewrite group_by_date_None, early_repeat_iff. unfold index, len.
  rewrite length_map. split.
  - intros (j & d & H1 & H2 & H3).
    rewrite nth_error_map in H1, H2.
    destruct (nth_error (elems acts) j) as [a|] eqn:Ea; [|discriminate].
    destruct (nth_error (elems acts) (S j)) as [b|] eqn:Eb; [|discriminate].
    exists j, a, b. simpl in H1, H2. repeat split; auto; congruence.
  - intros (j & a & b & H1 & H2 & H3 & H4).
    exists j, (ts_Time (act_OccursAt a)).
    rewrite !nth_error_map, H1, H2. simpl. rewrite H3. auto.
Qed.

(** C2 (the claim fails on the code).  The claim says that two
    activities on one date followed by a third give two groups.  Whenever
    the store answers with three activities of which the first two have
    the same date, the handler panics with an index out of range: at
    [j = 2] it reads [responseActsDates[1]] of a slice of length 1. *)
Theorem GetTripsTripIDActivities_same_date_twice_panics {W : Type}
  (h : impl W) (w : W) (guard : bool) (r : Request) (tripID : string)
  (id : UUID) (a1 a2 a3 : Activity) :
  uuid_Parse lib tripID = inl id ->
  fst (h (GetTripActivities id) w) = inl (Some [a1; a2; a3]) ->
  ts_Time (act_OccursAt a1) = ts_Time (act_OccursAt a2) ->
  out (run h (GetTripsTripIDActivities_with lib guard r tripID) w) =
  Panicked "runtime error: index out of range".
Proof.
  intros Hid Hacts Hdate.
  rewrite (GetTripsTripIDActivities_out h w guard r tripID id _ Hid Hacts).
  destruct a1 as [i1 t1 n1 [d1 v1]], a2 as [i2 t2 n2 [d2 v2]],
           a3 as [i3 t3 n3 [d3 v3]].
  simpl in Hdate. subst d2.
  cbv -[Z.eqb]. rewrite Z.eqb_refl. reflexivity.
Qed.

(** C3, as amended.  For three activities with dates A, B, A (A and B
    different) the handler returns three groups with the dates A, B, A in
    this order, and each group holds every activity of its date, in input
    order: the first and the third activity are both in the first and in
    the last group. *)
Theorem GetTripsTripIDActivities_date_seen_again {W : Type}
  (h : impl W) (w : W) (guard : bool) (r : Request) (tripID : string)
  (id : UUID) (a1 a2 a3 : Activity) :
  uuid_Parse lib tripID = inl id ->
  fst (h (GetTripActivities id) w) = inl (Some [a1; a2; a3]) ->
  ts_Time (act_OccursAt a1) <> ts_Time (act_OccursAt a2) ->
  ts_Time (act_OccursAt a3) = ts_Time (act_OccursAt a1) ->
  out (run h (GetTripsTripIDActivities_with lib guard r tripID) w) =
  Returned
    (GetTripsTripIDActivitiesJSON200Response
       {| Activities :=
            Some [ {| outer_Date := ts_Time (act_OccursAt a1);
                      outer_Activities :=
                        Some [inner_of lib a1; inner_of lib a3] |};
                   {| outer_Date := ts_Time (act_OccursAt a2);
                      outer_Activities := Some [inner_of lib a2] |};
                   {| outer_Date := ts_Time (act_OccursAt a1);
                      outer_Activities :=
                        Some [inner_of lib a1; inner_of lib a3] |} ] |}).
Proof.
  intros Hid Hacts Hne Heq.
  rewrite (GetTripsTripIDActivities_out h w guard r tripID id _ Hid Hacts).
  destruct a1 as [i1 t1 n1 [d1 v1]], a2 as [i2 t2 n2 [d2 v2]],
           a3 as [i3 t3 n3 [d3 v3]].
  simpl in Hne, Heq. subst d3.
  assert (E12 : Z.eqb d1 d2 = false) by (apply Z.eqb_neq; exact Hne).
  assert (E21 : Z.eqb d2 d1 = false) by (apply Z.eqb_neq; congruence).
  destruct guard; cbv -[Z.eqb];
    repeat (progress (rewrite ?E12, ?E21, ?Z.eqb_refl; cbv -[Z.eqb]));
    reflexivity.
Qed.

(** C8.  When the store answers with no activity ([nil] or an empty
    slice), the handler returns 200 with the empty slice [[]T{}] as the
    sequence of date groups, which is not [nil]. *)
Theorem GetTripsTripIDActivities_empty {W : Type}
  (h : impl W) (w : W) (r : Request) (tripID : string) (id : UUID)
  (acts : slice Activity) :
  uuid_Parse lib tripID = inl id ->
  fst (h (GetTripActivities id) w) = inl acts ->
  len acts = 0 ->
  out (run h (GetTripsTripIDActivities lib r tripID) w) =
  Returned (GetTripsTripIDActivitiesJSON200Response
              {| Activities := empty_slice |})
  /\ @empty_slice GetTripActivitiesResponseOuterArray <> nil_slice.
Proof.
  intros Hid Hacts Hlen. split; [|discriminate].
  unfold GetTripsTripIDActivities.
  rewrite (GetTripsTripIDActivities_out h w true r tripID id _ Hid Hacts).
  destruct acts as [[|a l]|]; try discriminate; reflexivity.
Qed.

(** The copy of the handler in [internal/api/api.go], which lacks the
    statement for the empty case, returns the [nil] slice there. *)
Lemma GetTripsTripIDActivities_api_go_empty {W : Type}
  (h : impl W) (w : W) (r : Request) (tripID : string) (id : UUID)
  (acts : slice Activity) :
  uuid_Parse lib tripID = inl id ->
  fst (h (GetTripActivities id) w) = inl acts ->
  len acts = 0 ->
  out (run h (GetTripsTripIDActivities_api_go lib r tripID) w) =
  Returned (GetTripsTripIDActivitiesJSON200Response
              {| Activities := nil_slice |}).
Proof.
  intros Hid Hacts Hlen.
  unfold GetTripsTripIDActivities_api_go.
  rewrite (GetTripsTripIDActivities_out h w false r tripID id _ Hid Hacts).
  destruct acts as [[|a l]|]; try discriminate; reflexivity.
Qed.
End Activities.

(** ** PostTripsTripIDActivities *)

Section CreateActivity.
Context (lib : Libs).

(** The handler does not read its request at all. *)
Lemma PostTripsTripIDActivities_any_request (r1 r2 : Request)
  (tripID : string) :
  PostTripsTripIDActivities lib r1 tripID
  = PostTripsTripIDActivities lib r2 tripID.
Proof. reflexivity. Qed.

(** C4.  For every request on an existing trip, whatever its body, the
    handler reads the trip and then hands to [CreateActivity] the trip
    id with the empty title and the zero time (marked valid): the
    [body] it reads the title and the time from is never written. *)
Theorem PostTripsTripIDActivities_zero_body {W : Type} (h : impl W) (w : W)
  (r : Request) (tripID : string) (id : UUID) (t : Trip) :
  uuid_Parse lib tripID = inl id ->
  fst (h (GetTrip id) w) = inl t ->
  trace (run h (PostTripsTripIDActivities lib r tripID) w) =
  [ GetTrip id;
    CreateActivity {| cap_TripID := id;
                      cap_Title := "";
                      cap_OccursAt := {| ts_Time := zeroTime;
                                         ts_Valid := true |} |} ].
Proof.
  intros Hid Ht. unfold PostTripsTripIDActivities.
  rewrite Hid. cbn [run trace]. rewrite Ht. cbn [run trace].
  destruct (fst (h (CreateActivity _) _)); reflexivity.
Qed.
End CreateActivity.

(** ** PatchParticipantsParticipantIDConfirm *)

Section ConfirmParticipant.
Context (lib : Libs).

Lemma PatchParticipantsParticipantIDConfirm_confirmed {W : Type}
  (h : impl W) (w : W) (r : Request) (participantID : string) (id : UUID)
  (p : Participant) :
  uuid_Parse lib participantID = inl id ->
  fst (h (GetParticipant id) w) = inl p ->
  part_IsConfirmed p = true ->
  run h (PatchParticipantsParticipantIDConfirm lib r participantID) w =
  {| out := Returned (PatchParticipantsParticipantIDConfirmJSON400Response
                        (mkError "participant already confirmed"));
     final := snd (h (GetParticipant id) w);
     trace := [GetParticipant id];
     started := [] |}.
Proof.
  intros Hid Hp Hc. unfold PatchParticipantsParticipantIDConfirm.
  rewrite Hid. cbn [run out final trace started]. rewrite Hp, Hc.
  reflexivity.
Qed.

(** C7.  For a participant the store holds as confirmed, the handler
    answers 400 "participant already confirmed"; the one call it makes is
    the read [GetParticipant], and the rows of the store and its open
    units of work are what they were. *)
Theorem PatchParticipantsParticipantIDConfirm_already_confirmed
  (w : World) (r : Request) (participantID : string) (id : UUID)
  (p : Participant) :
  uuid_Parse lib participantID = inl id ->
  next_fault w = None ->
  find_participant id w = Some p ->
  part_IsConfirmed p = true ->
  let res :=
    run mem (PatchParticipantsParticipantIDConfirm lib r participantID) w in
  out res = Returned (PatchParticipantsParticipantIDConfirmJSON400Response
                        (mkError "participant already confirmed"))
  /\ trace res = [GetParticipant id]
  /\ started res = []
  /\ participants (final res) = participants w
  /\ trips (final res) = trips w
  /\ activities (final res) = activities w
  /\ txs (final res) = txs w.
Proof.
  intros Hid Hf Hp Hc res.
  assert (Hget : mem (GetParticipant id) w = (inl p, pop_fault w)).
  { simpl. rewrite Hf, Hp. reflexivity. }
  assert (Hres : res = run mem
            (PatchParticipantsParticipantIDConfirm lib r participantID) w)
    by reflexivity.
  rewrite (PatchParticipantsParticipantIDConfirm_confirmed mem w r
             participantID id p Hid) in Hres;
    [| rewrite Hget; reflexivity | exact Hc].
  rewrite Hget in Hres. rewrite Hres. simpl. repeat split.
Qed.
End ConfirmParticipant.

(** ** PutTripsTripID *)

Section UpdateTrip.
Context (lib : Libs).

(** The handler compares no dates itself: a body the validation accepts
    reaches [UpdateTrip] with its dates as they are. *)
Lemma PutTripsTripID_accepted {W : Type} (h : impl W) (w : W)
  (r : Request) (tripID : string) (id : UUID) (trip : Trip) :
  uuid_Parse lib tripID = inl id ->
  fst (h (GetTrip id) w) = inl trip ->
  let body := fst (decode_UpdateTripRequest lib (req_Body r)) in
  validate_UpdateTripRequest lib body = None ->
  trace (run h (PutTripsTripID lib r tripID) w) =
  [ GetTrip id;
    UpdateTrip {| utp_ID := trip_ID trip;
                  utp_Destination := utr_Destination body;
                  utp_IsConfirmed := trip_IsConfirmed trip;
                  utp_StartsAt := mkTimestamp (utr_StartsAt body) true;
                  utp_EndsAt := mkTimestamp (utr_EndsAt body) true |} ].
Proof.
  intros Hid Ht body Hv. unfold PutTripsTripID.
  rewrite Hid. cbn [run trace]. rewrite Ht.
  subst body. destruct (decode_UpdateTripRequest lib (req_Body r)) as [b e].
  simpl in Hv. rewrite Hv. cbn [run trace].
  destruct (fst (h (UpdateTrip _) _)); reflexivity.
Qed.

(** C9.  With validation rules that reject an [endsAt] earlier than
    [startsAt], a request whose body has such dates is answered 400 and
    [UpdateTrip] is not called; when the trip exists the answer is the
    validation failure "invalid input: ...". *)
Theorem PutTripsTripID_inverted_range_rejected {W : Type} (h : impl W)
  (w : W) (r : Request) (tripID : string) :
  rejects_inverted_range (validate_UpdateTripRequest lib) ->
  let body := fst (decode_UpdateTripRequest lib (req_Body r)) in
  (utr_EndsAt body < utr_StartsAt body)%Z ->
  let res := run h (PutTripsTripID lib r tripID) w in
  (exists e, out res = Returned (PutTripsTripIDJSON400Response e))
  /\ Forall (fun c => ~ is_UpdateTrip c) (trace res)
  /\ (forall id trip,
        uuid_Parse lib tripID = inl id ->
        fst (h (GetTrip id) w) = inl trip ->
        exists err,
          validate_UpdateTripRequest lib body = Some err
          /\ out res =
             Returned (PutTripsTripIDJSON400Response
                         (mkError ("invalid input: " ++ error_Error err)%string))).
Proof.
  intros Hval body Hlt res. subst res. unfold PutTripsTripID.
  specialize (Hval body Hlt). subst body.
  destruct (decode_UpdateTripRequest lib (req_Body r)) as [b e].
  simpl in Hval.
  destruct (validate_UpdateTripRequest lib b) as [err|] eqn:Ev;
    [clear Hval | contradiction].
  destruct (uuid_Parse lib tripID) as [id|e0].
  - cbn [run out trace].
    destruct (fst (h (GetTrip id) w)) as [trip|e1] eqn:Et.
    + cbn [run out trace]. split; [eauto|]. split.
      * repeat constructor. intros [].
      * intros id' trip' Hid' Ht'. exists err. split; [exact Ev | reflexivity].
    + destruct (is_ErrNoRows e1); cbn [run out trace log_then];
        (split; [eauto|]); (split; [repeat constructor; intros []|]);
        intros id' trip' Hid' Ht'; inversion Hid'; subst id';
        rewrite Et in Ht'; discriminate.
  - cbn [run out trace]. split; [eauto|]. split; [constructor|].
    intros id' trip' Hid'. discriminate.
Qed.
End UpdateTrip.

(** ** GetTripsTripIDConfirm *)

Section ConfirmTrip.
Context (lib : Libs).

Lemma GetTripsTripIDConfirm_calls (r : Request) (tripID : string) :
  calls_only (fun c => ~ is_UpdateTrip c) (GetTripsTripIDConfirm lib r tripID).
Proof.
  unfold GetTripsTripIDConfirm, send_invitations_task, log_then.
  repeat first
    [ progress simpl
    | match goal with
      | |- calls_only _ (match ?x with _ => _ end) => destruct x
      | |- calls_only _ (if ?x then _ else _) => destruct x
      | |- forall _, _ => intro
      | |- ~ _ => intros []
      end
    | constructor ].
Qed.

Lemma send_invitations_task_calls (id : UUID) :
  calls_only mailer_or_logger (send_invitations_task lib id).
Proof.
  unfold send_invitations_task, log_then.
  constructor; [left; exact I|].
  intros [e|]; [|constructor].
  constructor; [right; exact I | intros; constructor].
Qed.

Lemma GetTripsTripIDConfirm_mail_detached (r : Request) (tripID : string) :
  mail_detached (GetTripsTripIDConfirm lib r tripID).
Proof.
  unfold GetTripsTripIDConfirm, log_then.
  destruct (uuid_Parse lib tripID) as [id|e]; [|constructor].
  constructor; [intros []|].
  intros [t|e].
  - constructor; [intros []|].
    intros [e|]; constructor.
    + apply send_invitations_task_calls.
    + constructor.
  - destruct (is_ErrNoRows e); repeat constructor. intros [].
Qed.

Lemma GetTripsTripIDConfirm_started (h : impl World) (w : World)
  (r : Request) (tripID : string) (t : prog unit) :
  In t (started (run h (GetTripsTripIDConfirm lib r tripID) w)) ->
  out (run h (GetTripsTripIDConfirm lib r tripID) w)
  = Returned GetTripsTripIDConfirmJSON204Response
  /\ exists id, uuid_Parse lib tripID = inl id
                /\ t = send_invitations_task lib id.
Proof.
  unfold GetTripsTripIDConfirm, log_then.
  destruct (uuid_Parse lib tripID) as [id|e]; cbn [run started out];
    [|intros []].
  destruct (fst (h (GetTrip id) w)) as [trip|e]; cbn [run started out].
  - destruct (fst (h (ConfirmParticipant id) _)); cbn [run started out].
    + intros [].
    + intros [Ht|[]]. split; [reflexivity|]. exists id. auto.
  - destruct (is_ErrNoRows e); cbn [run started out]; intros [].
Qed.

(** What the goroutine does when the mailer fails: it logs the error,
    and nothing else. *)
Lemma send_invitations_task_failed (id : UUID) (w : World) (e : error)
  (ms : list (option error)) :
  mail_faults w = Some e :: ms ->
  run mem (send_invitations_task lib id) w =
  {| out := Returned tt;
     final :=
       set_logs (logs w ++
                   [("failed to send email on GetTripsTripIDConfirm", e,
                     "trip_id", uuid_String lib id)])
                (pop_mail_fault w);
     trace :=
       [ SendEmailInvitations id;
         LoggerError "failed to send email on GetTripsTripIDConfirm" e
                     "trip_id" (uuid_String lib id) ];
     started := [] |}.
Proof.
  intros Hm. unfold send_invitations_task, log_then. simpl.
  unfold next_mail_fault. rewrite Hm. reflexivity.
Qed.

(** C1 (the claim fails on the code).  The claim says that a successful
    call leaves the trip with [is_confirmed = true].  The handler calls
    [ConfirmParticipant] with the id of the trip and never [UpdateTrip]:
    whatever the request and the store, the trips are after the call,
    goroutine included, what they were before it. *)
Theorem GetTripsTripIDConfirm_trips_unchanged (r : Request) (tripID : string)
  (w : World) :
  trips (final (run_detached mem (GetTripsTripIDConfirm lib r tripID) w))
  = trips w
  /\ trips (final (run_inline mem (GetTripsTripIDConfirm lib r tripID) w))
     = trips w
  /\ Forall (fun c => ~ is_UpdateTrip c)
       (trace (run_detached mem (GetTripsTripIDConfirm lib r tripID) w)).
Proof.
  pose proof (GetTripsTripIDConfirm_calls r tripID) as Hc.
  assert (Hstep : forall c w0, ~ is_UpdateTrip c ->
                               trips (snd (mem c w0)) = trips w0)
    by (intros; apply mem_trips; assumption).
  split; [|split].
  - apply (run_detached_invariant mem (fun c => ~ is_UpdateTrip c)
             (fun w w' => trips w' = trips w)); auto.
    intros; congruence.
  - apply (run_inline_invariant mem (fun c => ~ is_UpdateTrip c)
             (fun w w' => trips w' = trips w)); auto.
    intros; congruence.
  - apply calls_only_trace_detached. exact Hc.
Qed.

(** C10.  Take two runs of the handler from the same store that differ
    in what the mailer will answer.  The response is the same in both,
    whether the goroutine is done before the handler returns or runs
    after it, and it is the response computed without running the
    goroutine at all; the store ends the same in both.  When a goroutine
    is started the response is the 204, the goroutine is the sending of
    the invitations, and when the mailer fails all it does is to log the
    error. *)
Theorem GetTripsTripIDConfirm_mailer_independent (r : Request)
  (tripID : string) (w : World) (m1 m2 : list (option error)) :
  let H := GetTripsTripIDConfirm lib r tripID in
  let w1 := set_mail_faults m1 w in
  let w2 := set_mail_faults m2 w in
  out (run_inline mem H w1) = out (run_inline mem H w2)
  /\ out (run_detached mem H w1) = out (run_detached mem H w2)
  /\ out (run_inline mem H w1) = out (run mem H w)
  /\ gateway (final (run_inline mem H w1))
     = gateway (final (run_inline mem H w2))
  /\ (forall t, In t (started (run mem H w1)) ->
        out (run mem H w1) = Returned GetTripsTripIDConfirmJSON204Response
        /\ exists id,
             uuid_Parse lib tripID = inl id
             /\ t = send_invitations_task lib id
             /\ forall w' e ms,
                  mail_faults w' = Some e :: ms ->
                  final (run mem t w') =
                  set_logs (logs w' ++
                              [("failed to send email on GetTripsTripIDConfirm",
                                e, "trip_id", uuid_String lib id)])
                           (pop_mail_fault w')).
Proof.
  intros H w1 w2.
  pose proof (GetTripsTripIDConfirm_mail_detached r tripID) as Hmd.
  fold H in Hmd.
  destruct (mail_detached_schedules H Hmd w1 w eq_refl) as [O1 G1].
  destruct (mail_detached_schedules H Hmd w2 w eq_refl) as [O2 G2].
  destruct (mail_detached_schedules H Hmd w1 w1 eq_refl) as [O3 _].
  destruct (mail_detached_schedules H Hmd w2 w2 eq_refl) as [O4 _].
  split; [congruence|].
  split; [rewrite !run_detached_out; congruence|].
  split; [exact O1|].
  split; [congruence|].
  intros t Ht.
  destruct (GetTripsTripIDConfirm_started mem w1 r tripID t Ht)
    as (Hout & id & Hid & Heq).
  split; [exact Hout|].
  exists id. split; [exact Hid|]. split; [exact Heq|].
  intros w' e ms Hm. subst t.
  rewrite (send_invitations_task_failed id w' e ms Hm). reflexivity.
Qed.
End ConfirmTrip.

(** ** PostTripsTripIDInvites *)

Section Invites.
Context (lib : Libs).

Lemma PostTripsTripIDInvites_none_added (r : Request) (tripID : string)
  (w : World) :
  let res := run mem (PostTripsTripIDInvites lib r tripID) w in
  out res <> Returned PostTripsTripIDInvitesJSON201Response ->
  participants (final res) = participants w.
Proof.
  intros res. subst res. unfold PostTripsTripIDInvites, log_then.
  destruct (uuid_Parse lib tripID) as [id|e0]; [|reflexivity].
  cbn [run out final].
  destruct (fst (mem (GetTrip id) w)) as [trip|e1].
  2:{ destruct (is_ErrNoRows e1); intros _.
      - cbn [run final]. rewrite mem_participants by exact I. reflexivity.
      - cbn [run final]. rewrite !mem_participants by exact I. reflexivity. }
  destruct (decode_InviteParticipantRequest lib (req_Body r)) as [body errJson].
  destruct (validate_InviteParticipantRequest lib body) as [errVal|].
  { intros _. cbn [run final]. rewrite mem_participants by exact I.
    reflexivity. }
  cbn [run out final].
  destruct (fst (mem PoolBegin _)) as [tx|e2].
  2:{ intros _. cbn [run final]. rewrite !mem_participants by exact I.
      reflexivity. }
  cbn [defer bind run out final].
  destruct (fst (mem (InviteParticipantsToTrip tx _) _)) as [n|e3].
  2:{ intros _. cbn [defer bind run final].
      rewrite !mem_participants by exact I. reflexivity. }
  cbn [defer bind run out final].
  destruct (fst (mem (TxCommit tx) _)) as [e4|] eqn:Ec.
  - intros _. cbn [defer bind run final].
    rewrite mem_participants by exact I.
    rewrite (mem_commit_failed _ _ _ Ec).
    rewrite !mem_participants by exact I. reflexivity.
  - cbn [defer bind run out final]. intros Hne. exfalso. apply Hne.
    reflexivity.
Qed.

(** Once [Begin] has succeeded, [Rollback] on its transaction is the
    last call of the handler on every path, for any implementation of
    the pool and the store; a [Commit] that is reached either gives 201
    or the answer of a failed commit. *)
Lemma PostTripsTripIDInvites_paths {W : Type} (h : impl W) (w : W)
  (r : Request) (tripID : string) :
  let res := run h (PostTripsTripIDInvites lib r tripID) w in
  (In PoolBegin (trace res) ->
   out res = Returned begin_failed
   \/ exists tx, last (trace res) PoolBegin = TxRollback tx)
  /\ (forall tx, In (TxCommit tx) (trace res) ->
        out res = Returned PostTripsTripIDInvitesJSON201Response
        \/ out res = Returned commit_failed).
Proof.
  intros res. subst res. unfold PostTripsTripIDInvites, log_then.
  destruct (uuid_Parse lib tripID) as [id|e0];
    [|split; [intros [] | intros tx []]].
  cbn [run out trace].
  destruct (fst (h (GetTrip id) w)) as [trip|e1].
  2:{ destruct (is_ErrNoRows e1); cbn [run out trace]; split;
        try (intros [H|H]; [discriminate | destruct H as [H|[]]; discriminate]);
        try (intros tx [H|H]; [discriminate | destruct H as [H|[]]; discriminate]);
        try (intros [H|[]]; discriminate);
        try (intros tx [H|[]]; discriminate). }
  destruct (decode_InviteParticipantRequest lib (req_Body r)) as [body errJson].
  destruct (validate_InviteParticipantRequest lib body) as [errVal|].
  { cbn [run out trace]. split;
      [intros [H|[]]; discriminate | intros tx [H|[]]; discriminate]. }
  cbn [run out trace].
  destruct (fst (h PoolBegin _)) as [tx|e2].
  2:{ cbn [run out trace]. split; [intros _; left; reflexivity|].
      intros tx [H|[H|[]]]; discriminate. }
  cbn [defer bind run out trace].
  destruct (fst (h (InviteParticipantsToTrip tx _) _)) as [n|e3].
  2:{ cbn [defer bind run out trace]. split.
      - intros _. right. exists tx. reflexivity.
      - intros tx' [H|[H|[H|[H|[]]]]]; discriminate. }
  cbn [defer bind run out trace].
  destruct (fst (h (TxCommit tx) _)) as [e4|];
    cbn [defer bind run out trace]; split;
    try (intros _; right; exists tx; reflexivity);
    intros tx' _; [right | left]; reflexivity.
Qed.

(** A failed validation, for an existing trip, is answered as such,
    before the pool is asked for a transaction. *)
Lemma PostTripsTripIDInvites_invalid {W : Type} (h : impl W) (w : W)
  (r : Request) (tripID : string) (id : UUID) (trip : Trip)
  (errVal : error) :
  uuid_Parse lib tripID = inl id ->
  fst (h (GetTrip id) w) = inl trip ->
  validate_InviteParticipantRequest lib
    (fst (decode_InviteParticipantRequest lib (req_Body r))) = Some errVal ->
  out (run h (PostTripsTripIDInvites lib r tripID) w)
  = Returned (validation_failed errVal)
  /\ trace (run h (PostTripsTripIDInvites lib r tripID) w) = [GetTrip id].
Proof.
  intros Hid Ht Hv. unfold PostTripsTripIDInvites.
  rewrite Hid. cbn [run out trace]. rewrite Ht.
  destruct (decode_InviteParticipantRequest lib (req_Body r)) as [body errJson].
  simpl in Hv. rewrite Hv. split; reflexivity.
Qed.

Lemma commit_failed_not_validation (errVal : error) :
  commit_failed <> validation_failed errVal.
Proof. unfold commit_failed, validation_failed. discriminate. Qed.

Lemma PostTripsTripIDInvites_added (r : Request) (tripID : string)
  (w : World) :
  let res := run mem (PostTripsTripIDInvites lib r tripID) w in
  out res = Returned PostTripsTripIDInvitesJSON201Response ->
  exists id,
    uuid_Parse lib tripID = inl id
    /\ participants (final res)
       = participants w ++
         [ mkParticipant (next_id w) id
             (ipr_Email (fst (decode_InviteParticipantRequest lib (req_Body r))))
             false ].
Proof.
  intros res. subst res. unfold PostTripsTripIDInvites, log_then.
  destruct (uuid_Parse lib tripID) as [id|e0]; [|discriminate].
  cbn [run out final].
  destruct (fst (mem (GetTrip id) w)) as [trip|e1].
  2:{ destruct (is_ErrNoRows e1); discriminate. }
  assert (Hw1 : snd (mem (GetTrip id) w) = pop_fault w).
  { simpl. destruct (next_fault w); reflexivity. }
  rewrite Hw1.
  destruct (decode_InviteParticipantRequest lib (req_Body r)) as [body errJson].
  destruct (validate_InviteParticipantRequest lib body) as [errVal|];
    [discriminate|].
  cbn [run out final fst].
  destruct (fst (mem PoolBegin (pop_fault w))) as [tx|e2] eqn:Eb;
    [|discriminate].
  destruct (mem_begin_ok _ _ Eb) as [Htx Hw2]. rewrite Hw2.
  cbn [defer bind run out final].
  match goal with
  | |- context [mem (InviteParticipantsToTrip tx ?a) ?v] =>
      set (w2 := v)
  end.
  destruct (fst (mem (InviteParticipantsToTrip tx _) w2)) as [n|e3] eqn:Ei;
    [|discriminate].
  assert (Hf2 : find_tx tx w2 = Some []).
  { unfold find_tx, w2. simpl. rewrite Nat.eqb_refl. reflexivity. }
  rewrite (mem_invite_one_ok w2 tx [] _ n Hf2 Ei).
  cbn [defer bind run out final].
  match goal with
  | |- context [mem (TxCommit tx) ?v] => set (w3 := v)
  end.
  destruct (fst (mem (TxCommit tx) w3)) as [e4|] eqn:Ec; [discriminate|].
  destruct (mem_commit_ok w3 tx Ec) as (staged & Hf3 & Hp3).
  intros _. exists id. split; [reflexivity|].
  cbn [defer bind run out final].
  rewrite mem_participants by exact I. rewrite Hp3.
  unfold w3 in Hf3. unfold set_next_id, find_tx in Hf3. simpl in Hf3.
  rewrite Nat.eqb_refl in Hf3. simpl in Hf3. injection Hf3 as <-.
  reflexivity.
Qed.

(** C6.  An invitation adds its participant or nothing: when the answer
    is not 201 (the insert or the commit failed, or an earlier step did)
    the participants of the store are what they were, and a 201 comes
    with exactly the invited participant added.  Once [Begin] has
    succeeded, [Rollback] on the transaction is the last call on every
    path.  A failed commit is answered with a message of its own, which
    no failed validation gives. *)
Theorem PostTripsTripIDInvites_all_or_nothing (r : Request)
  (tripID : string) (w : World) :
  let res := run mem (PostTripsTripIDInvites lib r tripID) w in
  (out res <> Returned PostTripsTripIDInvitesJSON201Response ->
   participants (final res) = participants w)
  /\ (out res = Returned PostTripsTripIDInvitesJSON201Response ->
      exists id,
        uuid_Parse lib tripID = inl id
        /\ participants (final res)
           = participants w ++
             [ mkParticipant (next_id w) id
                 (ipr_Email
                    (fst (decode_InviteParticipantRequest lib (req_Body r))))
                 false ])
  /\ (In PoolBegin (trace res) ->
      out res = Returned begin_failed
      \/ exists tx, last (trace res) PoolBegin = TxRollback tx)
  /\ (forall tx, In (TxCommit tx) (trace res) ->
        out res = Returned PostTripsTripIDInvitesJSON201Response
        \/ out res = Returned commit_failed)
  /\ (forall errVal, commit_failed <> validation_failed errVal).
Proof.
  intros res.
  destruct (PostTripsTripIDInvites_paths mem w r tripID) as [Hroll Hcom].
  split; [apply PostTripsTripIDInvites_none_added|].
  split; [apply PostTripsTripIDInvites_added|].
  split; [exact Hroll|].
  split; [exact Hcom|].
  apply commit_failed_not_validation.
Qed.
End Invites.

(** ** Runs on the store of the examples *)

(** The trip of [world0] is not confirmed; after a confirm request that is
    answered 204 it still is not: the handler has called
    [ConfirmParticipant] with the id of the trip. *)
Example GetTripsTripIDConfirm_lisbon :
  let res := run_detached mem (GetTripsTripIDConfirm lib0 (mkRequest "") "1")
               world0 in
  out res = Returned GetTripsTripIDConfirmJSON204Response
  /\ trace res = [GetTrip 1; ConfirmParticipant 1; SendEmailInvitations 1]
  /\ find_trip 1 (final res) = Some lisbon
  /\ trip_IsConfirmed lisbon = false.
Proof. vm_compute. repeat split. Qed.

(** A failing commit: the answer of a failed commit, no participant
    added, the transaction rolled back. *)
Example PostTripsTripIDInvites_commit_fails :
  let w := set_faults [None; None; None; Some (Err "conn closed")] world0 in
  let res := run mem (PostTripsTripIDInvites lib0
                        (mkRequest "bob@example.com") "1") w in
  out res = Returned commit_failed
  /\ participants (final res) = participants world0
  /\ txs (final res) = []
  /\ last (trace res) PoolBegin = TxRollback 0.
Proof. vm_compute. repeat split. Qed.

Lemma GetTripsTripIDActivities_same_date_twice_panics_witness :
  out (run mem (GetTripsTripIDActivities lib0 (mkRequest "") "1")
         (with_activities [(10, "x"); (10, "y"); (20, "z")]%Z world0))
  = Panicked "runtime error: index out of range".
Proof.
  apply (GetTripsTripIDActivities_same_date_twice_panics lib0 mem
           (with_activities [(10, "x"); (10, "y"); (20, "z")]%Z world0)
           true (mkRequest "") "1" 1%N
           (activity_at 0 10 "x") (activity_at 1 10 "y")
           (activity_at 2 20 "z"));
    reflexivity.
Defined.

(** The output that C3 states for the dates 10, 20, 10 is not the output
    of the handler. *)
Lemma GetTripsTripIDActivities_date_seen_again_counterexample :
  out (run mem (GetTripsTripIDActivities lib0 (mkRequest "") "1")
         (with_activities [(10, "x"); (20, "y"); (10, "z")]%Z world0))
  <> Returned
       (GetTripsTripIDActivitiesJSON200Response
          {| Activities :=
               Some [ {| outer_Date := 10;
                         outer_Activities :=
                           Some [inner_of lib0 (activity_at 0 10 "x")] |};
                      {| outer_Date := 20;
                         outer_Activities :=
                           Some [inner_of lib0 (activity_at 1 20 "y")] |};
                      {| outer_Date := 10;
                         outer_Activities :=
                           Some [inner_of lib0 (activity_at 2 10 "z")] |} ] |}).
Proof. vm_compute. discriminate. Qed.

Lemma GetTripsTripIDActivities_date_seen_again_witness :
  out (run mem (GetTripsTripIDActivities lib0 (mkRequest "") "1")
         (with_activities [(10, "x"); (20, "y"); (10, "z")]%Z world0))
  = Returned
      (GetTripsTripIDActivitiesJSON200Response
         {| Activities :=
              Some [ {| outer_Date := 10;
                        outer_Activities :=
                          Some [inner_of lib0 (activity_at 0 10 "x");
                                inner_of lib0 (activity_at 2 10 "z")] |};
                     {| outer_Date := 20;
                        outer_Activities :=
                          Some [inner_of lib0 (activity_at 1 20 "y")] |};
                     {| outer_Date := 10;
                        outer_Activities :=
                          Some [inner_of lib0 (activity_at 0 10 "x");
                                inner_of lib0 (activity_at 2 10 "z")] |} ] |}).
Proof.
  apply (GetTripsTripIDActivities_date_seen_again lib0 mem
           (with_activities [(10, "x"); (20, "y"); (10, "z")]%Z world0)
           true (mkRequest "") "1" 1%N
           (activity_at 0 10 "x") (activity_at 1 20 "y")
           (activity_at 2 10 "z"));
    [reflexivity | reflexivity | discriminate | reflexivity].
Defined.

Lemma GetTripsTripIDActivities_empty_witness :
  out (run mem (GetTripsTripIDActivities lib0 (mkRequest "") "1") world0)
  = Returned (GetTripsTripIDActivitiesJSON200Response
                {| Activities := empty_slice |})
  /\ @empty_slice GetTripActivitiesResponseOuterArray <> nil_slice.
Proof.
  apply (GetTripsTripIDActivities_empty lib0 mem world0 (mkRequest "") "1"
           1%N nil_slice); reflexivity.
Defined.

Lemma PostTripsTripIDActivities_zero_body_witness :
  trace (run mem (PostTripsTripIDActivities lib0
                    (mkRequest "title=hike&occurs_at=2024-07-01") "1") world0)
  = [ GetTrip 1;
      CreateActivity {| cap_TripID := 1;
                        cap_Title := "";
                        cap_OccursAt := {| ts_Time := zeroTime;
                                           ts_Valid := true |} |} ].
Proof.
  apply (PostTripsTripIDActivities_zero_body lib0 mem world0 _ "1" 1%N lisbon);
    reflexivity.
Defined.

Lemma PatchParticipantsParticipantIDConfirm_already_confirmed_witness :
  let res := run mem (PatchParticipantsParticipantIDConfirm lib0
                        (mkRequest "") "2") world0 in
  out res = Returned (PatchParticipantsParticipantIDConfirmJSON400Response
                        (mkError "participant already confirmed"))
  /\ trace res = [GetParticipant 2]
  /\ started res = []
  /\ participants (final res) = participants world0
  /\ trips (final res) = trips world0
  /\ activities (final res) = activities world0
  /\ txs (final res) = txs world0.
Proof.
  apply (PatchParticipantsParticipantIDConfirm_already_confirmed lib0 world0
           (mkRequest "") "2" 2%N
           (mkParticipant 2 1 "ana@example.com" true));
    reflexivity.
Defined.

Lemma PutTripsTripID_inverted_range_rejected_witness :
  rejects_inverted_range check_date_range
  /\ out (run mem (PutTripsTripID (stub_lib (9, 5)%Z) (mkRequest "Porto") "1")
            world0)
     = Returned (PutTripsTripIDJSON400Response
                   (mkError "invalid input: Key: 'UpdateTripRequest.EndsAt' Error:Field validation"))
  /\ trace (run mem (PutTripsTripID (stub_lib (9, 5)%Z) (mkRequest "Porto") "1")
              world0)
     = [GetTrip 1].
Proof.
  assert (Hval : rejects_inverted_range check_date_range).
  { intros b Hb. unfold check_date_range.
    destruct (Z.ltb_spec (utr_EndsAt b) (utr_StartsAt b)); [discriminate|lia]. }
  split; [exact Hval|].
  destruct (PutTripsTripID_inverted_range_rejected (stub_lib (9, 5)%Z) mem
              world0 (mkRequest "Porto") "1" Hval) as (_ & _ & H).
  { simpl. lia. }
  destruct (H 1%N lisbon eq_refl eq_refl) as (err & Herr & Hout).
  split; [|reflexivity].
  rewrite Hout. simpl in Herr. injection Herr as <-. reflexivity.
Defined.

(** * Further properties *)

(** ** The date grouping as a function of its input *)

Lemma extend_append {A : Type} (s : slice A) (a : A) (l : list A) :
  extend (append s a) l = extend s (a :: l).
Proof.
  unfold extend, append. destruct l as [|b l]; simpl.
  - reflexivity.
  - rewrite <- app_assoc. reflexivity.
Qed.

Lemma scan_from_value (ra : slice GetTripActivitiesResponseInnerArray) :
  forall rest j ds dprev,
    skipn (S j) (elems ra) = rest ->
    len ds = S j ->
    index ds j = Some dprev ->
    early_repeat (dprev :: map inner_OccursAt rest) = false ->
    for_loop (S j) (List.length rest) (dates_step ra) ds
    = Some (extend ds (drop_repeats_after dprev (map inner_OccursAt rest))).
Proof.
  induction rest as [|a rest IH]; intros j ds dprev Hskip Hlen Hprev Hno.
  - reflexivity.
  - destruct (skipn_cons_nth _ _ _ _ Hskip) as [Hnth Hskip'].
    simpl for_loop. unfold dates_step at 1. simpl Nat.eqb.
    rewrite Nat.sub_1_r. simpl Nat.pred.
    rewrite Hprev. unfold index at 1. rewrite Hnth.
    simpl map in *. rewrite early_repeat_cons in Hno.
    simpl drop_repeats_after.
    destruct (Z.eqb dprev (inner_OccursAt a)) eqn:E; simpl negb; cbv iota.
    + destruct rest as [|b rest]; [reflexivity | discriminate].
    + assert (Hlen' : len (append ds (inner_OccursAt a)) = S (S j)).
      { unfold len, append in *. simpl. rewrite length_app. simpl. lia. }
      assert (Hprev' : index (append ds (inner_OccursAt a)) (S j)
                       = Some (inner_OccursAt a)).
      { unfold index, append. cbn [elems]. unfold len in Hlen. rewrite <- Hlen.
        apply nth_error_snoc. }
      assert (Hno' : early_repeat (inner_OccursAt a :: map inner_OccursAt rest)
                     = false).
      { destruct rest as [|b rest]; [reflexivity | exact Hno]. }
      rewrite (IH (S j) _ _ Hskip' Hlen' Hprev' Hno').
      rewrite extend_append. reflexivity.
Qed.

(** The dates the scan keeps.  It panics when two neighbours are equal and
    an element follows them; otherwise it keeps the dates of the input in
    their order, each date equal to the one before it left out (which can
    then only be the last). *)
Lemma responseActsDates_of_value
  (ra : slice GetTripActivitiesResponseInnerArray) :
  responseActsDates_of ra =
  if early_repeat (map inner_OccursAt (elems ra)) then None
  else Some (extend nil_slice (drop_repeats (map inner_OccursAt (elems ra)))).
Proof.
  destruct (early_repeat (map inner_OccursAt (elems ra))) eqn:E.
  - apply responseActsDates_of_None_iff. exact E.
  - unfold responseActsDates_of, len.
    destruct (elems ra) as [|a rest] eqn:El; [reflexivity|].
    simpl for_loop. unfold dates_step at 1. simpl Nat.eqb. unfold index at 1.
    rewrite El. simpl nth_error. cbv iota.
    rewrite (scan_from_value ra rest 0 _ (inner_OccursAt a)).
    + rewrite extend_append. reflexivity.
    + rewrite El. reflexivity.
    + reflexivity.
    + reflexivity.
    + exact E.
Qed.

Lemma actsInner_loop (ra : slice GetTripActivitiesResponseInnerArray)
  (dates : slice Time) (x : nat) (d : Time) :
  index dates x = Some d ->
  forall rest i s,
    skipn i (elems ra) = rest ->
    for_loop i (List.length rest)
      (fun y actsInner =>
         match index ra y with
         | None => None
         | Some a =>
             match index dates x with
             | None => None
             | Some d =>
                 if Z.eqb (inner_OccursAt a) d
                 then Some (append actsInner a)
                 else Some actsInner
             end
         end) s
    = Some (extend s (filter (at_date d) rest)).
Proof.
  intros Hx. rewrite Hx. induction rest as [|a rest IH]; intros i s Hskip.
  - reflexivity.
  - destruct (skipn_cons_nth _ _ _ _ Hskip) as [Hnth Hskip'].
    simpl for_loop. unfold index at 1. rewrite Hnth.
    simpl filter. destruct (at_date d a) eqn:Ea; unfold at_date in Ea;
      rewrite Ea.
    + rewrite (IH (S i) _ Hskip'). f_equal. apply extend_append.
    + apply IH. exact Hskip'.
Qed.

Lemma actsInner_of_value (ra : slice GetTripActivitiesResponseInnerArray)
  (dates : slice Time) (x : nat) (d : Time) :
  index dates x = Some d ->
  actsInner_of ra dates x
  = Some (extend nil_slice (filter (at_date d) (elems ra))).
Proof.
  intros Hx. unfold actsInner_of, len.
  apply (actsInner_loop ra dates x d Hx (elems ra) 0 nil_slice). reflexivity.
Qed.

Lemma responseActsFinal_loop (ra : slice GetTripActivitiesResponseInnerArray)
  (dates : slice Time) :
  forall rest x s,
    skipn x (elems dates) = rest ->
    for_loop x (List.length rest)
      (fun x responseActsFinal =>
         match actsInner_of ra dates x with
         | None => None
         | Some actsInner =>
             match index dates x with
             | None => None
             | Some d => Some (append responseActsFinal (mkOuter actsInner d))
             end
         end) s
    = Some (extend s (map (group_of (elems ra)) rest)).
Proof.
  induction rest as [|d rest IH]; intros x s Hskip.
  - reflexivity.
  - destruct (skipn_cons_nth _ _ _ _ Hskip) as [Hnth Hskip'].
    simpl for_loop. rewrite (actsInner_of_value ra dates x d Hnth).
    unfold index. rewrite Hnth.
    rewrite (IH (S x) _ Hskip'). simpl map. f_equal. apply extend_append.
Qed.

Lemma responseActsFinal_of_value
  (ra : slice GetTripActivitiesResponseInnerArray) (dates : slice Time)
  (init : slice GetTripActivitiesResponseOuterArray) :
  responseActsFinal_of ra dates init
  = Some (extend init (map (group_of (elems ra)) (elems dates))).
Proof.
  unfold responseActsFinal_of, len.
  apply (responseActsFinal_loop ra dates (elems dates) 0 init). reflexivity.
Qed.

Lemma elems_extend {A : Type} (s : slice A) (l : list A) :
  elems (extend s l) = elems s ++ l.
Proof.
  destruct l; simpl; [rewrite app_nil_r|]; reflexivity.
Qed.

Section GroupingValue.
Context (lib : Libs).

(** With no two neighbours at the same date followed by another, the
    groups are those of the dates the scan keeps. *)
Lemma group_by_date_kept (guard : bool) (acts : slice Activity) :
  early_repeat (map date_of (elems acts)) = false ->
  group_by_date lib guard acts =
  Some (extend (if guard && Nat.eqb (len acts) 0
                then empty_slice else nil_slice)
          (map (group_of (map (inner_of lib) (elems acts)))
               (drop_repeats (map date_of (elems acts))))).
Proof.
  intros E. unfold group_by_date.
  destruct (responseActs_of_spec lib acts) as (ra & Hra & Hel & _).
  rewrite Hra, responseActsDates_of_value.
  assert (Hd : map inner_OccursAt (elems ra) = map date_of (elems acts)).
  { rewrite Hel, map_map. reflexivity. }
  rewrite Hd, E.
  rewrite responseActsFinal_of_value, elems_extend, Hel. simpl app.
  unfold len at 1. rewrite elems_extend. simpl app.
  f_equal. f_equal. unfold len.
  destruct (elems acts); reflexivity.
Qed.

(** X1.  The date grouping as a function: it panics when two neighbouring
    activities have the same date and another follows; otherwise it gives
    one group per date the scan keeps, in that order, and the group of a
    date holds every activity of the input at that date, in input order.
    With no activity the result is [[]T{}] with the guard and [nil]
    without it. *)
Theorem group_by_date_value (guard : bool) (acts : slice Activity) :
  group_by_date lib guard acts =
  if early_repeat (map date_of (elems acts)) then None
  else
    Some (extend (if guard && Nat.eqb (len acts) 0
                  then empty_slice else nil_slice)
            (map (group_of (map (inner_of lib) (elems acts)))
                 (drop_repeats (map date_of (elems acts))))).
Proof.
  destruct (early_repeat (map date_of (elems acts))) eqn:E.
  - apply group_by_date_None. exact E.
  - apply group_by_date_kept. exact E.
Qed.
End GroupingValue.

Lemma drop_repeats_after_keeps (d : Time) (l : list Time) :
  forall prev, In d l -> d = prev \/ In d (drop_repeats_after prev l).
Proof.
  induction l as [|a t IH]; intros prev Hin; [contradiction|].
  simpl. destruct (Z.eqb_spec prev a) as [->|Hne].
  - destruct Hin as [<-|Hin]; [left; reflexivity|]. apply IH. exact Hin.
  - destruct Hin as [<-|Hin]; [right; left; reflexivity|].
    destruct (IH a Hin) as [->|H]; right; [left; reflexivity | right; exact H].
Qed.

Lemma drop_repeats_keeps (d : Time) (l : list Time) :
  In d l -> In d (drop_repeats l).
Proof.
  destruct l as [|a t]; [contradiction|]. intros [<-|Hin]; [left; reflexivity|].
  simpl. destruct (drop_repeats_after_keeps d t a Hin) as [->|H];
    [left; reflexivity | right; exact H].
Qed.

Lemma drop_repeats_after_incl (d : Time) (l : list Time) :
  forall prev, In d (drop_repeats_after prev l) -> In d l.
Proof.
  induction l as [|a t IH]; intros prev Hin; [contradiction|].
  simpl in Hin. destruct (Z.eqb prev a).
  - right. apply (IH a). exact Hin.
  - destruct Hin as [<-|Hin]; [left; reflexivity | right; apply (IH a); exact Hin].
Qed.

Lemma drop_repeats_incl (d : Time) (l : list Time) :
  In d (drop_repeats l) -> In d l.
Proof.
  destruct l as [|a t]; [contradiction|]. intros [<-|Hin]; [left; reflexivity|].
  right. apply (drop_repeats_after_incl d t a). exact Hin.
Qed.

Lemma drop_repeats_after_NoDup (l : list Time) :
  forall prev, NoDup (prev :: l) -> drop_repeats_after prev l = l.
Proof.
  induction l as [|a t IH]; intros prev Hnd; [reflexivity|].
  simpl. inversion Hnd as [|? ? Hnin Hnd']; subst.
  destruct (Z.eqb_spec prev a) as [->|Hne].
  - exfalso. apply Hnin. left. reflexivity.
  - f_equal. apply IH. exact Hnd'.
Qed.

Lemma early_repeat_NoDup (l : list Time) : NoDup l -> early_repeat l = false.
Proof.
  induction l as [|a t IH]; intros Hnd; [reflexivity|].
  inversion Hnd as [|? ? Hnin Hnd']; subst.
  destruct t as [|b t]; [reflexivity|]. rewrite early_repeat_cons.
  destruct t as [|c t]; [reflexivity|].
  rewrite (IH Hnd'), orb_false_r. apply Z.eqb_neq.
  intros ->. apply Hnin. left. reflexivity.
Qed.

Section GroupingFacts.
Context (lib : Libs).

Lemma filter_at_date_none (d : Time) (l : list Activity) :
  ~ In d (map date_of l) -> filter (at_date d) (map (inner_of lib) l) = [].
Proof.
  induction l as [|a l IH]; intros Hnin; [reflexivity|].
  simpl. unfold at_date at 1. simpl inner_OccursAt.
  destruct (Z.eqb_spec (ts_Time (act_OccursAt a)) d) as [E|E].
  - exfalso. apply Hnin. left. exact E.
  - apply IH. intros H. apply Hnin. right. exact H.
Qed.

Lemma groups_NoDup (l : list Activity) :
  NoDup (map date_of l) ->
  forall pre,
    (forall a, In a pre -> ~ In (date_of a) (map date_of l)) ->
    map (group_of (map (inner_of lib) (pre ++ l))) (map date_of l)
    = map (fun a => {| outer_Activities := Some [inner_of lib a];
                       outer_Date := date_of a |}) l.
Proof.
  induction l as [|a l IH]; intros Hnd pre Hpre; [reflexivity|].
  inversion Hnd as [|? ? Hnin Hnd']; subst.
  rewrite (map_cons date_of), !map_cons. f_equal.
  - unfold group_of. f_equal.
    rewrite map_app, filter_app. simpl map.
    rewrite filter_at_date_none.
    + simpl. unfold at_date at 1. simpl inner_OccursAt.
      unfold date_of at 1. rewrite Z.eqb_refl.
      rewrite filter_at_date_none by exact Hnin. reflexivity.
    + intros Hin. apply in_map_iff in Hin. destruct Hin as (b & Hb & Hin).
      apply (Hpre b Hin). left. symmetry. exact Hb.
  - replace (pre ++ a :: l) with ((pre ++ [a]) ++ l)
      by (rewrite <- app_assoc; reflexivity).
    apply IH; [exact Hnd'|].
    intros b Hin Hd. apply in_app_or in Hin. destruct Hin as [Hin|[<-|[]]].
    + apply (Hpre b Hin). right. exact Hd.
    + apply Hnin. exact Hd.
Qed.

(** X2.  When the activities the store answers with are at pairwise
    different times, the handler returns one group per activity, in the
    order of the store, each holding that activity alone. *)
Theorem GetTripsTripIDActivities_distinct_dates {W : Type} (h : impl W)
  (w : W) (guard : bool) (r : Request) (tripID : string) (id : UUID)
  (a : Activity) (l : list Activity) :
  uuid_Parse lib tripID = inl id ->
  fst (h (GetTripActivities id) w) = inl (Some (a :: l)) ->
  NoDup (map date_of (a :: l)) ->
  out (run h (GetTripsTripIDActivities_with lib guard r tripID) w) =
  Returned
    (GetTripsTripIDActivitiesJSON200Response
       {| Activities :=
            Some (map (fun a => {| outer_Activities := Some [inner_of lib a];
                                   outer_Date := date_of a |})
                      (a :: l)) |}).
Proof.
  intros Hid Hacts Hnd.
  rewrite (GetTripsTripIDActivities_out lib h w guard r tripID id _ Hid Hacts).
  rewrite (group_by_date_kept lib guard (Some (a :: l)))
    by (apply early_repeat_NoDup; exact Hnd).
  cbn [elems].
  assert (Hdr : drop_repeats (map date_of (a :: l)) = map date_of (a :: l)).
  { simpl. f_equal. apply drop_repeats_after_NoDup. exact Hnd. }
  rewrite Hdr.
  change (a :: l) with ([] ++ a :: l) at 2.
  rewrite (groups_NoDup (a :: l) Hnd []) by (intros b []).
  rewrite andb_false_r. reflexivity.
Qed.
End GroupingFacts.

Section GroupingSound.
Context (lib : Libs).

(** X3.  The grouping gives the [nil] slice only without the guard and on
    no activity: with the guard the sequence of groups is never [nil]. *)
Theorem group_by_date_nil_iff (guard : bool) (acts : slice Activity) :
  group_by_date lib guard acts = Some nil_slice <->
  guard = false /\ len acts = 0.
Proof.
  destruct (early_repeat (map date_of (elems acts))) eqn:E.
  - split.
    + intros H. apply (group_by_date_None lib guard) in E.
      rewrite E in H. discriminate.
    + intros [_ Hlen]. unfold len in Hlen.
      destruct (elems acts); [discriminate E | discriminate Hlen].
  - rewrite (group_by_date_kept lib guard acts E). unfold len.
    destruct (elems acts) as [|a l] eqn:El.
    + simpl. destruct guard; simpl; split;
        try discriminate; try (intros [H _]; discriminate); auto.
    + simpl drop_repeats. simpl map. unfold extend.
      split; [discriminate | intros [_ H]; discriminate].
Qed.

(** X4.  When the grouping answers, no activity is lost and no group is
    made up: every group holds exactly the activities of the input at its
    date, in input order, and there is at least one; every activity of the
    input is in a group of its date; there are no more groups than
    activities. *)
Theorem group_by_date_sound (guard : bool) (acts gs : slice _) :
  group_by_date lib guard acts = Some gs ->
  (forall g, In g (elems gs) ->
     outer_Activities g
     = Some (filter (at_date (outer_Date g)) (map (inner_of lib) (elems acts)))
     /\ exists a, In a (elems acts) /\ date_of a = outer_Date g)
  /\ (forall a, In a (elems acts) ->
        exists g, In g (elems gs) /\ outer_Date g = date_of a
                  /\ In (inner_of lib a) (elems (outer_Activities g)))
  /\ List.length (elems gs) <= len acts.
Proof.
  destruct (early_repeat (map date_of (elems acts))) eqn:E.
  { apply (group_by_date_None lib guard) in E. rewrite E. discriminate. }
  rewrite (group_by_date_kept lib guard acts E).
  intros H. injection H as <-. rewrite elems_extend.
  assert (Hinit : elems (if guard && Nat.eqb (len acts) 0
                         then @empty_slice GetTripActivitiesResponseOuterArray
                         else nil_slice) = []).
  { destruct (guard && Nat.eqb (len acts) 0); reflexivity. }
  rewrite Hinit. simpl app.
  assert (Hfilter : forall a, In a (elems acts) ->
            In (inner_of lib a)
               (filter (at_date (date_of a)) (map (inner_of lib) (elems acts)))).
  { intros a Ha. apply filter_In. split.
    - apply in_map. exact Ha.
    - unfold at_date, date_of. simpl. apply Z.eqb_refl. }
  split; [|split].
  - intros g Hg. apply in_map_iff in Hg. destruct Hg as (d & <- & Hd).
    apply drop_repeats_incl in Hd. apply in_map_iff in Hd.
    destruct Hd as (a & <- & Ha). simpl. split; [|exists a; auto].
    specialize (Hfilter a Ha). unfold extend.
    destruct (filter (at_date (date_of a)) (map (inner_of lib) (elems acts)));
      [contradiction | reflexivity].
  - intros a Ha. exists (group_of (map (inner_of lib) (elems acts)) (date_of a)).
    split; [|split].
    + apply in_map. apply drop_repeats_keeps. apply in_map. exact Ha.
    + reflexivity.
    + simpl. rewrite elems_extend. simpl. apply Hfilter. exact Ha.
  - rewrite length_map. unfold len.
    rewrite <- (length_map date_of (elems acts)).
    generalize (map date_of (elems acts)). intros l.
    destruct l as [|a l]; [apply Nat.le_refl|]. simpl.
    apply le_n_S. revert a. induction l as [|b l IH]; intros a; simpl.
    + apply Nat.le_refl.
    + destruct (Z.eqb a b); simpl; [apply Nat.le_le_succ_r | apply le_n_S];
        apply IH.
Qed.
End GroupingSound.

(** ** More on the handlers of the claims *)

Section MoreOnHandlers.
Context (lib : Libs).

(** X5.  [PUT /trips/{tripId}] with a body the validation accepts,
    whether or not the decoder reported an error on it: the handler calls
    [UpdateTrip] once, with the id and the confirmation flag of the trip
    it has read (the body cannot change them) and the destination and the
    dates of the body, marked valid; it answers 204 with the body when the
    update succeeds and 400 when it fails. *)
Theorem PutTripsTripID_update {W : Type} (h : impl W) (w : W)
  (r : Request) (tripID : string) (id : UUID) (trip : Trip) :
  uuid_Parse lib tripID = inl id ->
  fst (h (GetTrip id) w) = inl trip ->
  let body := fst (decode_UpdateTripRequest lib (req_Body r)) in
  validate_UpdateTripRequest lib body = None ->
  let params :=
    {| utp_ID := trip_ID trip;
       utp_Destination := utr_Destination body;
       utp_IsConfirmed := trip_IsConfirmed trip;
       utp_StartsAt := mkTimestamp (utr_StartsAt body) true;
       utp_EndsAt := mkTimestamp (utr_EndsAt body) true |} in
  let res := run h (PutTripsTripID lib r tripID) w in
  trace res = [GetTrip id; UpdateTrip params]
  /\ out res =
     match fst (h (UpdateTrip params) (snd (h (GetTrip id) w))) with
     | None => Returned (PutTripsTripIDJSON204Response body)
     | Some _ =>
         Returned (PutTripsTripIDJSON400Response
                     (mkError "failed to update trip, try again"))
     end.
Proof.
  intros Hid Ht body Hv params res. subst res params.
  unfold PutTripsTripID. rewrite Hid. cbn [run trace out]. rewrite Ht.
  subst body. destruct (decode_UpdateTripRequest lib (req_Body r)) as [b e].
  simpl in Hv. rewrite Hv. cbn [run trace out fst].
  destruct (fst (h (UpdateTrip _) _)); split; reflexivity.
Qed.

(** X6.  A decoding error is never answered by [PUT /trips/{tripId}] nor
    by [POST /trips/{tripId}/invites]: the 400 "invalid json" response is
    built and dropped, and no path of these handlers returns it. *)
Theorem invalid_json_never_answered {W : Type} (h : impl W) (w : W)
  (r : Request) (tripID : string) (detail : string) :
  out (run h (PutTripsTripID lib r tripID) w)
  <> Returned (PutTripsTripIDJSON400Response
                 (mkError ("invalid json: " ++ detail)%string))
  /\ out (run h (PostTripsTripIDInvites lib r tripID) w)
     <> Returned (PostTripsTripIDInvitesJSON400Response
                    (mkError ("invalid json: " ++ detail)%string)).
Proof.
  split.
  - unfold PutTripsTripID, log_then.
    destruct (uuid_Parse lib tripID) as [id|e0]; cbn [run out];
      [|intros H; inversion H].
    destruct (fst (h (GetTrip id) w)) as [trip|e1].
    + destruct (decode_UpdateTripRequest lib (req_Body r)) as [b e].
      destruct (validate_UpdateTripRequest lib b); cbn [run out];
        [intros H; inversion H|].
      destruct (fst (h (UpdateTrip _) _)); cbn [run out]; intros H;
        inversion H.
    + destruct (is_ErrNoRows e1); cbn [run out]; intros H; inversion H.
  - unfold PostTripsTripIDInvites, log_then.
    destruct (uuid_Parse lib tripID) as [id|e0]; cbn [run out];
      [|intros H; inversion H].
    destruct (fst (h (GetTrip id) w)) as [trip|e1].
    + destruct (decode_InviteParticipantRequest lib (req_Body r)) as [b e].
      destruct (validate_InviteParticipantRequest lib b); cbn [run out];
        [intros H; inversion H|].
      destruct (fst (h PoolBegin _)) as [tx|e2]; cbn [defer bind run out];
        [|intros H; inversion H].
      destruct (fst (h (InviteParticipantsToTrip tx _) _));
        cbn [defer bind run out]; [|intros H; inversion H].
      destruct (fst (h (TxCommit tx) _)); cbn [defer bind run out];
        intros H; inversion H.
    + destruct (is_ErrNoRows e1); cbn [run out]; intros H; inversion H.
Qed.
End MoreOnHandlers.

Section MoreOnInvites.
Context (lib : Libs).

(** X7.  [POST /trips/{tripId}/invites] asks the pool for a transaction
    only for a trip the store has returned and a body the validation has
    accepted: a missing trip or an invalid body opens no transaction. *)
Theorem PostTripsTripIDInvites_begin_only_when {W : Type} (h : impl W)
  (w : W) (r : Request) (tripID : string) :
  In PoolBegin (trace (run h (PostTripsTripIDInvites lib r tripID) w)) ->
  exists id trip,
    uuid_Parse lib tripID = inl id
    /\ fst (h (GetTrip id) w) = inl trip
    /\ validate_InviteParticipantRequest lib
         (fst (decode_InviteParticipantRequest lib (req_Body r))) = None.
Proof.
  unfold PostTripsTripIDInvites, log_then.
  destruct (uuid_Parse lib tripID) as [id|e0]; cbn [run trace]; [|intros []].
  destruct (fst (h (GetTrip id) w)) as [trip|e1] eqn:Et.
  - destruct (decode_InviteParticipantRequest lib (req_Body r)) as [b e].
    destruct (validate_InviteParticipantRequest lib b) eqn:Ev; cbn [run trace].
    + intros [H|[]]. discriminate.
    + intros _. exists id, trip. auto.
  - destruct (is_ErrNoRows e1); cbn [run trace].
    + intros [H|[]]. discriminate.
    + intros [H|[H|[]]]; discriminate.
Qed.

(** X8.  Every insert [POST /trips/{tripId}/invites] makes carries exactly
    one row: the trip of the path with the e-mail of the decoded body.  A
    request never invites more than one address. *)
Theorem PostTripsTripIDInvites_one_row {W : Type} (h : impl W)
  (w : W) (r : Request) (tripID : string) (tx : Tx)
  (arg : slice InviteParticipantsToTripParams) :
  In (InviteParticipantsToTrip tx arg)
     (trace (run h (PostTripsTripIDInvites lib r tripID) w)) ->
  exists id,
    uuid_Parse lib tripID = inl id
    /\ arg = Some [ {| inv_TripID := id;
                       inv_Email :=
                         ipr_Email (fst (decode_InviteParticipantRequest lib
                                           (req_Body r))) |} ].
Proof.
  unfold PostTripsTripIDInvites, log_then.
  destruct (uuid_Parse lib tripID) as [id|e0]; cbn [run trace]; [|intros []].
  destruct (fst (h (GetTrip id) w)) as [trip|e1] eqn:Et.
  - destruct (decode_InviteParticipantRequest lib (req_Body r)) as [b e].
    destruct (validate_InviteParticipantRequest lib b) eqn:Ev; cbn [run trace].
    + intros [H|[]]. discriminate.
    + destruct (fst (h PoolBegin _)) as [tx'|e2]; cbn [defer bind run trace].
      * destruct (fst (h (InviteParticipantsToTrip tx' _) _));
          cbn [defer bind run trace].
        -- destruct (fst (h (TxCommit tx') _)); cbn [defer bind run trace];
             intros [H|[H|[H|[H|[H|[]]]]]]; try discriminate;
             injection H as _ <-; exists id; auto.
        -- intros [H|[H|[H|[H|[]]]]]; try discriminate.
           injection H as _ <-. exists id. auto.
      * intros [H|[H|[]]]; discriminate.
  - destruct (is_ErrNoRows e1); cbn [run trace].
    + intros [H|[]]. discriminate.
    + intros [H|[H|[]]]; discriminate.
Qed.
End MoreOnInvites.

Section MoreOnConfirm.
Context (lib : Libs).

(** X9.  [GET /trips/{tripId}/confirm] starts its goroutine exactly when
    it answers 204, and then exactly one, the sending of the invitations
    of the trip of the path; no other answer comes with a dispatch.  It
    answers 204 for every trip the store returns, confirmed already or
    not, once [ConfirmParticipant] has succeeded. *)
Theorem GetTripsTripIDConfirm_one_dispatch {W : Type} (h : impl W) (w : W)
  (r : Request) (tripID : string) :
  let res := run h (GetTripsTripIDConfirm lib r tripID) w in
  (out res = Returned GetTripsTripIDConfirmJSON204Response ->
   exists id, uuid_Parse lib tripID = inl id
              /\ started res = [send_invitations_task lib id])
  /\ (out res <> Returned GetTripsTripIDConfirmJSON204Response ->
      started res = [])
  /\ (forall id trip,
        uuid_Parse lib tripID = inl id ->
        fst (h (GetTrip id) w) = inl trip ->
        fst (h (ConfirmParticipant id) (snd (h (GetTrip id) w))) = None ->
        out res = Returned GetTripsTripIDConfirmJSON204Response).
Proof.
  intros res. subst res. unfold GetTripsTripIDConfirm, log_then.
  destruct (uuid_Parse lib tripID) as [id|e0]; cbn [run out started];
    [|split; [discriminate | split; [reflexivity | discriminate]]].
  destruct (fst (h (GetTrip id) w)) as [trip|e1] eqn:Et; cbn [run out started].
  - destruct (fst (h (ConfirmParticipant id) _)) eqn:Ec; cbn [run out started].
    + split; [discriminate | split; [reflexivity|]].
      intros id' trip' Hid _ Hc. injection Hid as <-. rewrite Ec in Hc.
      discriminate.
    + split; [intros _; exists id; auto|].
      split; [intros H; exfalso; apply H; reflexivity | reflexivity].
  - destruct (is_ErrNoRows e1); cbn [run out started];
      (split; [discriminate | split; [reflexivity|]]);
      intros id' trip' Hid Ht; injection Hid as <-; rewrite Et in Ht;
      discriminate.
Qed.

(** X10.  [PATCH /participants/{participantId}/confirm] calls
    [ConfirmParticipant] exactly when the store has returned the
    participant of the path as not confirmed, and then with the id of the
    path: a participant that is missing, or confirmed already, is never
    written. *)
Theorem PatchParticipantsParticipantIDConfirm_writes_only_when {W : Type}
  (h : impl W) (w : W) (r : Request) (participantID : string) (id' : UUID) :
  In (ConfirmParticipant id')
     (trace (run h (PatchParticipantsParticipantIDConfirm lib r participantID) w))
  <->
  exists p,
    uuid_Parse lib participantID = inl id'
    /\ fst (h (GetParticipant id') w) = inl p
    /\ part_IsConfirmed p = false.
Proof.
  unfold PatchParticipantsParticipantIDConfirm, log_then.
  destruct (uuid_Parse lib participantID) as [id|e0]; cbn [run trace].
  2:{ split; [intros [] | intros (p & H & _); discriminate]. }
  destruct (fst (h (GetParticipant id) w)) as [p|e1] eqn:Ep.
  - destruct (part_IsConfirmed p) eqn:Ec; cbn [run trace].
    + split.
      * intros [H|[]]. discriminate.
      * intros (p' & Hid & Hp & Hc). injection Hid as <-.
        rewrite Ep in Hp. injection Hp as <-. congruence.
    + split.
      * intros Hin. exists p.
        destruct (fst (h (ConfirmParticipant id) _)); cbn [run trace] in Hin;
          (destruct Hin as [H|[H|Hin]];
           [discriminate | injection H as <-; auto |]);
          simpl in Hin; exfalso; intuition discriminate.
      * intros (p' & Hid & _). injection Hid as <-.
        destruct (fst (h (ConfirmParticipant id) _)); cbn [run trace];
          right; left; reflexivity.
  - split.
    + destruct (is_ErrNoRows e1); cbn [run trace].
      * intros [H|[]]. discriminate.
      * intros [H|[H|[]]]; discriminate.
    + intros (p & Hid & Hp & _). injection Hid as <-. rewrite Ep in Hp.
      discriminate.
Qed.
End MoreOnConfirm.

(** ** Confirming a participant twice *)

Lemma find_confirm_row (id : UUID) (l : list Participant) :
  find (fun p => N.eqb (part_ID p) id) (map (confirm_row id) l)
  = option_map (confirm_row id) (find (fun p => N.eqb (part_ID p) id) l).
Proof.
  induction l as [|p l IH]; [reflexivity|]. simpl.
  assert (Hid : part_ID (confirm_row id p) = part_ID p).
  { unfold confirm_row. destruct (N.eqb (part_ID p) id); reflexivity. }
  rewrite Hid. destruct (N.eqb (part_ID p) id); [reflexivity | exact IH].
Qed.

Section ConfirmTwice.
Context (lib : Libs).

(** X11.  In the in-memory store with no fault to come, confirming a
    participant that is not confirmed answers 204 and sets the flag of the
    rows of that id, and of no other row; the same request once more is
    answered 400 "participant already confirmed" after the read alone, and
    leaves the participants as the first has left them. *)
Theorem PatchParticipantsParticipantIDConfirm_twice (w : World)
  (r : Request) (participantID : string) (id : UUID) (p : Participant) :
  uuid_Parse lib participantID = inl id ->
  faults w = [] ->
  find_participant id w = Some p ->
  part_IsConfirmed p = false ->
  let H := PatchParticipantsParticipantIDConfirm lib r participantID in
  let first := run mem H w in
  let second := run mem H (final first) in
  out first = Returned PatchParticipantsParticipantIDConfirmJSON204Response
  /\ participants (final first) = map (confirm_row id) (participants w)
  /\ out second
     = Returned (PatchParticipantsParticipantIDConfirmJSON400Response
                   (mkError "participant already confirmed"))
  /\ trace second = [GetParticipant id]
  /\ participants (final second) = participants (final first).
Proof.
  intros Hid Hf Hp Hc H first second.
  assert (Hfirst : first =
            {| out := Returned PatchParticipantsParticipantIDConfirmJSON204Response;
               final := set_participants (map (confirm_row id) (participants w))
                          (pop_fault (pop_fault w));
               trace := [GetParticipant id; ConfirmParticipant id];
               started := [] |}).
  { subst first H. unfold PatchParticipantsParticipantIDConfirm.
    rewrite Hid. simpl. unfold next_fault. rewrite Hf. simpl.
    rewrite Hp, Hc. simpl. unfold next_fault. simpl. rewrite Hf. reflexivity. }
  assert (Hp' : find_participant id (final first) = Some (confirm_row id p)).
  { rewrite Hfirst. unfold find_participant. simpl.
    rewrite find_confirm_row. unfold find_participant in Hp. rewrite Hp.
    reflexivity. }
  assert (Hc' : part_IsConfirmed (confirm_row id p) = true).
  { unfold find_participant in Hp. apply find_some in Hp.
    destruct Hp as [_ Hpid]. unfold confirm_row. rewrite Hpid. reflexivity. }
  assert (Hf' : next_fault (final first) = None).
  { rewrite Hfirst. unfold next_fault. simpl. rewrite Hf. reflexivity. }
  assert (Hget : mem (GetParticipant id) (final first)
                 = (inl (confirm_row id p), pop_fault (final first))).
  { simpl. rewrite Hf', Hp'. reflexivity. }
  assert (Hsecond : second =
            {| out := Returned (PatchParticipantsParticipantIDConfirmJSON400Response
                                  (mkError "participant already confirmed"));
               final := pop_fault (final first);
               trace := [GetParticipant id];
               started := [] |}).
  { subst second H.
    rewrite (PatchParticipantsParticipantIDConfirm_confirmed lib mem
               (final first) r participantID id (confirm_row id p) Hid);
      [rewrite Hget; reflexivity | rewrite Hget; reflexivity | exact Hc']. }
  split; [rewrite Hfirst; reflexivity|].
  split; [rewrite Hfirst; reflexivity|].
  rewrite Hsecond. repeat split.
Qed.
End ConfirmTwice.

(** ** The handlers of links and participants *)

Lemma range_append_extend {A B : Type} (f : A -> B) (s : slice A)
  (acc : slice B) :
  range_append f s acc = extend acc (map f (elems s)).
Proof.
  unfold range_append. generalize (elems s). intros l. revert acc.
  induction l as [|a l IH]; intros acc; [reflexivity|].
  simpl fold_left. rewrite IH. apply extend_append.
Qed.

Lemma parts_fold_per_iteration (us : UUID -> string) (l : list Participant) :
  forall vars refs,
    fold_left (parts_step us true) l (vars, refs)
    = (vars ++ l,
       extend refs
         (map (fun '(i, p) =>
                 mkPartRef (part_Email p) (us (part_ID p))
                           (part_IsConfirmed p) i)
              (combine (seq (List.length vars) (List.length l)) l))).
Proof.
  induction l as [|p l IH]; intros vars refs.
  - simpl. rewrite app_nil_r. reflexivity.
  - simpl fold_left. rewrite IH.
    rewrite <- app_assoc. simpl app. f_equal.
    rewrite extend_append. rewrite length_app. simpl List.length.
    rewrite Nat.add_1_r. reflexivity.
Qed.

Lemma written_per_iteration (us : UUID -> string) (rest : list Participant) :
  forall pre,
    map (written (pre ++ rest))
        (map (fun '(i, p) =>
                mkPartRef (part_Email p) (us (part_ID p))
                          (part_IsConfirmed p) i)
             (combine (seq (List.length pre) (List.length rest)) rest))
    = map (fun p => part_item us (part_Email p) p) rest.
Proof.
  induction rest as [|p rest IH]; intros pre; [reflexivity|].
  simpl. f_equal.
  - unfold written, part_item. simpl.
    rewrite nth_error_app2 by lia. rewrite Nat.sub_diag. reflexivity.
  - specialize (IH (pre ++ [p])). rewrite <- app_assoc in IH. simpl in IH.
    rewrite length_app in IH. simpl in IH. rewrite Nat.add_1_r in IH.
    exact IH.
Qed.

Lemma last_default {A : Type} (l : list A) :
  forall x d1 d2, last (x :: l) d1 = last (x :: l) d2.
Proof.
  induction l as [|y l IH]; intros x d1 d2; [reflexivity|].
  change (last (y :: l) d1 = last (y :: l) d2). apply IH.
Qed.

Lemma parts_fold_shared (us : UUID -> string) (l : list Participant) :
  forall p vars refs,
    fold_left (parts_step us false) (p :: l) (vars, refs)
    = ([last (p :: l) p],
       extend refs
         (map (fun p => mkPartRef (part_Email p) (us (part_ID p))
                                  (part_IsConfirmed p) 0)
              (p :: l))).
Proof.
  induction l as [|q l IH]; intros p vars refs.
  - reflexivity.
  - change (fold_left (parts_step us false) (p :: q :: l) (vars, refs))
      with (fold_left (parts_step us false) (q :: l)
              (parts_step us false (vars, refs) p)).
    unfold parts_step at 2. rewrite IH. f_equal.
    + f_equal. change (last (q :: l) q = last (q :: l) p). apply last_default.
    + rewrite extend_append. reflexivity.
Qed.

Lemma extend_nil_cons {A B : Type} (f : A -> B) (a : A) (l : list A) :
  extend nil_slice (map f (a :: l)) = Some (map f (a :: l)).
Proof. reflexivity. Qed.

(** X12.  The participants of the response: one element per participant
    the store answers with, in that order, with its id, e-mail and flag;
    with no participant the slice is [nil] (the handler has no statement
    for the empty case, unlike the handler of links).  [Name] leads to the
    e-mail of the element itself when each iteration has its own loop
    variable, and to the e-mail of the last participant, for every
    element, when the loop has one variable. *)
Theorem responseParts_of_value (us : UUID -> string) (per_iteration : bool)
  (parts : slice Participant) :
  responseParts_of us per_iteration parts =
  extend nil_slice
    (map (fun p =>
            part_item us
              (if per_iteration then part_Email p
               else part_Email (last (elems parts) p))
              p)
         (elems parts)).
Proof.
  unfold responseParts_of. destruct per_iteration.
  - rewrite parts_fold_per_iteration. simpl List.length. simpl app.
    destruct (elems parts) as [|p l] eqn:El; [reflexivity|].
    pose proof (written_per_iteration us (p :: l) []) as H.
    simpl app in H. change (List.length (@nil Participant)) with 0 in H.
    rewrite (extend_nil_cons (fun p => part_item us (part_Email p) p)).
    rewrite <- H. reflexivity.
  - destruct (elems parts) as [|p l] eqn:El; [reflexivity|].
    rewrite parts_fold_shared. rewrite !extend_nil_cons.
    cbn [option_map]. f_equal.
    rewrite map_map. apply map_ext. intros q.
    unfold written, part_item. simpl. f_equal. f_equal.
    change (last (p :: l) p = last (p :: l) q). apply last_default.
Qed.

Section LinksAndTrips.
Context (lib : Libs) (lib2 : Libs2).

(** X13.  [GET /trips/{tripId}/links] on an existing trip returns one
    element per link the store answers with, in that order, with its id,
    title and url; with no link the slice is [[]T{}], never [nil]. *)
Theorem GetTripsTripIDLinks_value {W : Type} (h : gimpl aans W) (w : W)
  (r : Request) (tripID : string) (id : UUID) (trip : Trip)
  (links : slice Link) :
  uuid_Parse lib tripID = inl id ->
  fst (h (Base (GetTrip id)) w) = inl trip ->
  fst (h (GetTripLinks id) (snd (h (Base (GetTrip id)) w))) = inl links ->
  gout (grun h (GetTripsTripIDLinks lib r tripID) w)
  = Returned (GetTripsTripIDLinksJSON200Response
                (Some (map (link_item (uuid_String lib)) (elems links)))).
Proof.
  intros Hid Ht Hl. unfold GetTripsTripIDLinks, ADo.
  rewrite Hid. cbn [grun gout]. rewrite Ht. cbn [grun gout]. rewrite Hl.
  cbn [grun gout]. rewrite range_append_extend. unfold len.
  destruct (elems links); reflexivity.
Qed.

(** X14.  [POST /trips/{tripId}/links] returns a decoding error: on an
    existing trip a body that does not decode is answered 400 "invalid
    json: ..." after the read of the trip alone, and nothing is handed to
    the validation or to the store. *)
Theorem PostTripsTripIDLinks_invalid_json {W : Type} (h : gimpl aans W)
  (w : W) (r : Request) (tripID : string) (id : UUID) (trip : Trip)
  (errJson : error) :
  uuid_Parse lib tripID = inl id ->
  fst (h (Base (GetTrip id)) w) = inl trip ->
  snd (decode_CreateLinkRequest lib2 (req_Body r)) = Some errJson ->
  let res := grun h (PostTripsTripIDLinks lib lib2 r tripID) w in
  gout res
  = Returned (PostTripsTripIDLinksJSON400Response
                (mkError ("invalid json: " ++ error_Error errJson)%string))
  /\ gtrace res = [Base (GetTrip id)].
Proof.
  intros Hid Ht Hd res. subst res. unfold PostTripsTripIDLinks, ADo.
  rewrite Hid. cbn [grun gout gtrace]. rewrite Ht.
  destruct (decode_CreateLinkRequest lib2 (req_Body r)) as [b e].
  simpl in Hd. subst e. split; reflexivity.
Qed.

(** X15.  Whatever [POST /trips/{tripId}/links] hands to [CreateTripLink]
    is the trip of the path with the title and the url of the decoded
    body, and the body has decoded without error and passed the
    validation. *)
Theorem PostTripsTripIDLinks_created_from_body {W : Type}
  (h : gimpl aans W) (w : W) (r : Request) (tripID : string)
  (arg : CreateTripLinkParams) :
  In (CreateTripLink arg)
     (gtrace (grun h (PostTripsTripIDLinks lib lib2 r tripID) w)) ->
  exists id body,
    uuid_Parse lib tripID = inl id
    /\ decode_CreateLinkRequest lib2 (req_Body r) = (body, None)
    /\ validate_CreateLinkRequest lib2 body = None
    /\ arg = {| ctl_TripID := id;
                ctl_Title := clr_Title body;
                ctl_Url := clr_URL body |}.
Proof.
  unfold PostTripsTripIDLinks, ADo, alog_then, ADo.
  destruct (uuid_Parse lib tripID) as [id|e0]; cbn [grun gtrace];
    [|intros []].
  destruct (fst (h (Base (GetTrip id)) w)) as [trip|e1].
  - destruct (decode_CreateLinkRequest lib2 (req_Body r)) as [b [e|]].
    + cbn [grun gtrace]. intros [H|[]]. discriminate.
    + destruct (validate_CreateLinkRequest lib2 b) eqn:Ev; cbn [grun gtrace].
      * intros [H|[]]. discriminate.
      * destruct (fst (h (CreateTripLink _) _)); cbn [grun gtrace];
          intros [H|[H|[]]]; try discriminate; injection H as <-;
          exists id, b; auto.
  - destruct (is_ErrNoRows e1); cbn [grun gtrace].
    + intros [H|[]]. discriminate.
    + intros [H|[H|[]]]; discriminate.
Qed.

(** X16.  [POST /trips] calls [CreateTrip] only with a body the validation
    has accepted, and starts its goroutine exactly when the store has
    created the trip: then it answers 201 with the new id and starts the
    one sending of the confirmation to the owner of that trip; a failed
    validation makes no call at all, and a failed creation is answered
    400 with no dispatch. *)
Theorem PostTrips_dispatch {W : Type} (h : gimpl aans W) (w : W)
  (r : Request) :
  let body := fst (decode_CreateTripRequest lib2 (req_Body r)) in
  let res := grun h (PostTrips lib lib2 r) w in
  match validate_CreateTripRequest lib2 body with
  | Some err =>
      gout res = Returned (PostTripsJSON400Response
                             (mkError ("invalid input: " ++ error_Error err)%string))
      /\ gtrace res = [] /\ gstarted res = []
  | None =>
      gtrace res = [CreateTrip body]
      /\ match fst (h (CreateTrip body) w) with
         | inl tripID =>
             gout res = Returned (PostTripsJSON201Response
                                    (uuid_String lib tripID))
             /\ gstarted res = [send_confirmation_task lib tripID]
         | inr _ =>
             gout res = Returned (PostTripsJSON400Response
                                    (mkError "failed to create trip, try again"))
             /\ gstarted res = []
         end
  end.
Proof.
  intros body res. subst res body. unfold PostTrips, ADo.
  destruct (decode_CreateTripRequest lib2 (req_Body r)) as [b e].
  cbn [fst].
  destruct (validate_CreateTripRequest lib2 b); cbn [grun gout gtrace gstarted].
  - auto.
  - destruct (fst (h (CreateTrip b) w)); cbn [grun gout gtrace gstarted];
      auto.
Qed.

(** X17.  The handlers of [GET /trips/{tripId}], of its links, of its
    participants and of its activities only read the store and write to
    the log, on every path. *)
Theorem get_handlers_read_only (r : Request) (tripID : string)
  (per_iteration guard : bool) :
  gcalls_only areads_or_logs (GetTripsTripID lib r tripID)
  /\ gcalls_only areads_or_logs (GetTripsTripIDLinks lib r tripID)
  /\ gcalls_only areads_or_logs
       (GetTripsTripIDParticipants lib per_iteration r tripID)
  /\ calls_only reads_or_logs (GetTripsTripIDActivities_with lib guard r tripID).
Proof.
  unfold GetTripsTripID, GetTripsTripIDLinks, GetTripsTripIDParticipants,
    GetTripsTripIDActivities_with, alog_then, log_then, ADo.
  destruct (uuid_Parse lib tripID) as [id|e0].
  2:{ repeat split; constructor. }
  repeat split.
  - constructor; [exact I|]. intros [trip|e1]; [constructor|].
    destruct (is_ErrNoRows e1); repeat constructor.
  - constructor; [exact I|]. intros [trip|e1].
    + constructor; [exact I|]. intros [links|e2]; constructor.
    + destruct (is_ErrNoRows e1); repeat constructor.
  - constructor; [exact I|]. intros [trip|e1].
    + constructor; [exact I|]. intros [parts|e2]; constructor.
    + destruct (is_ErrNoRows e1); repeat constructor.
  - constructor; [exact I|]. intros [acts|e1].
    + destruct (group_by_date lib guard acts); constructor.
    + destruct (is_ErrNoRows e1); repeat constructor.
Qed.
End LinksAndTrips.

(** ** The mailer *)

Section MailpitFacts.
Context (F : Time -> string).

Lemma send_message_done {W : Type} (h : gimpl mans W) (w : W)
  (fn body : string) :
  gout (grun h (send_message fn body) w) = Returned None ->
  gtrace (grun h (send_message fn body) w)
  = [MailNewClient "localhost" 1025;
     ClientDialAndSend "Confirme sua viagem" body].
Proof.
  unfold send_message, MDo. cbn [grun gout gtrace].
  destruct (fst (h (MailNewClient _ _) w)); cbn [grun gout gtrace];
    [discriminate|].
  destruct (fst (h (ClientDialAndSend _ _) _)); cbn [grun gout gtrace];
    [discriminate | reflexivity].
Qed.

Lemma to_each_done {W : Type} (h : gimpl mans W)
  (k : mprog (option error)) (ps : list Participant) :
  forall w,
    gout (grun h (to_each ps k) w) = Returned None ->
    exists w',
      gout (grun h k w') = Returned None
      /\ gtrace (grun h (to_each ps k) w)
         = map (fun p => MsgTo (part_Email p)) ps ++ gtrace (grun h k w').
Proof.
  induction ps as [|p ps IH]; intros w Hout.
  - exists w. split; [exact Hout | reflexivity].
  - simpl to_each in *. unfold MDo in *. cbn [grun gout gtrace] in *.
    destruct (fst (h (MsgTo (part_Email p)) w)); cbn [grun gout] in Hout;
      [discriminate|].
    destruct (IH _ Hout) as (w' & Hk & Ht). exists w'. split; [exact Hk|].
    rewrite Ht. reflexivity.
Qed.

(** X18.  When [SendEmailInvitations] returns [nil] it has read the trip
    and its participants, set the sender, called [msg.To] once for each
    participant the store has answered with, in that order (not at all
    when there is none), and then sent one message, with the destination
    and the start date of the trip in its body. *)
Theorem SendEmailInvitations_done {W : Type} (h : gimpl mans W) (w : W)
  (trupID : UUID) :
  let res := grun h (SendEmailInvitations_mailpit F trupID) w in
  gout res = Returned None ->
  exists trip participants,
    fst (h (MGetTrip trupID) w) = inl trip
    /\ fst (h (MGetParticipants trupID) (snd (h (MGetTrip trupID) w)))
       = inl participants
    /\ gtrace res
       = [MGetTrip trupID; MGetParticipants trupID;
          MsgFrom "mailpit@journey.com"]
         ++ map (fun p => MsgTo (part_Email p)) (elems participants)
         ++ [MailNewClient "localhost" 1025;
             ClientDialAndSend "Confirme sua viagem"
               (invitation_body (trip_Destination trip)
                  (F (ts_Time (trip_StartsAt trip))))].
Proof.
  intros res. subst res. unfold SendEmailInvitations_mailpit, MDo.
  cbn [grun gout gtrace].
  destruct (fst (h (MGetTrip trupID) w)) as [trip|e]; cbn [grun gout gtrace];
    [|discriminate].
  destruct (fst (h (MGetParticipants trupID) _)) as [parts|e];
    cbn [grun gout gtrace]; [|discriminate].
  destruct (fst (h (MsgFrom _) _)); cbn [grun gout gtrace]; [discriminate|].
  intros Hout. destruct (to_each_done h _ _ _ Hout) as (w' & Hk & Ht).
  exists trip, parts. split; [reflexivity|]. split; [reflexivity|].
  rewrite Ht, (send_message_done h w' _ _ Hk). reflexivity.
Qed.

(** X19.  When [SendConfirmTripEmailToTripOwner] returns [nil] it has
    read the trip, set the sender, set the owner's e-mail of that trip as
    the one recipient and sent one message, whose body greets the owner
    by name and gives the destination and the start date. *)
Theorem SendConfirmTripEmailToTripOwner_done {W : Type} (h : gimpl mans W)
  (w : W) (trupID : UUID) :
  let res := grun h (SendConfirmTripEmailToTripOwner_mailpit F trupID) w in
  gout res = Returned None ->
  exists trip,
    fst (h (MGetTrip trupID) w) = inl trip
    /\ gtrace res
       = [MGetTrip trupID; MsgFrom "mailpit@journey.com";
          MsgTo (trip_OwnerEmail trip);
          MailNewClient "localhost" 1025;
          ClientDialAndSend "Confirme sua viagem"
            (owner_body (trip_OwnerName trip) (trip_Destination trip)
               (F (ts_Time (trip_StartsAt trip))))].
Proof.
  intros res. subst res. unfold SendConfirmTripEmailToTripOwner_mailpit, MDo.
  cbn [grun gout gtrace].
  destruct (fst (h (MGetTrip trupID) w)) as [trip|e]; cbn [grun gout gtrace];
    [|discriminate].
  destruct (fst (h (MsgFrom _) _)); cbn [grun gout gtrace]; [discriminate|].
  destruct (fst (h (MsgTo _) _)); cbn [grun gout gtrace]; [discriminate|].
  intros Hout. exists trip. split; [reflexivity|].
  rewrite (send_message_done h _ _ _ Hout). reflexivity.
Qed.

Lemma well_stopped_step (a : forall c, mans c) (c : mcall)
  (k : mans c -> mprog (option error)) :
  succeeded a c ->
  well_stopped a (grun (by_oracle a) (k (a c)) tt) ->
  well_stopped a (grun (by_oracle a) (GDo c k) tt).
Proof.
  intros Hc. unfold well_stopped. cbn [grun gout gtrace by_oracle fst snd].
  destruct (gout (grun (by_oracle a) (k (a c)) tt)) as [[e|]|m].
  - intros (pre & c' & ctx & cause & Ht & Hpre & Hc' & He).
    exists (c :: pre), c', ctx, cause. rewrite Ht. auto.
  - intros H. constructor; assumption.
  - intros [].
Qed.

Lemma well_stopped_fail (a : forall c, mans c) (c : mcall)
  (k : mans c -> mprog (option error)) (ctx : string) (cause : error) :
  answer_error c (a c) = Some cause ->
  k (a c) = GRet (Some (Errorf_w ctx cause)) ->
  well_stopped a (grun (by_oracle a) (GDo c k) tt).
Proof.
  intros Hc Hk. unfold well_stopped.
  cbn [grun gout gtrace by_oracle fst snd]. rewrite Hk.
  cbn [grun gout gtrace]. exists [], c, ctx, cause. auto.
Qed.

Lemma send_message_well_stopped (a : forall c, mans c) (fn body : string) :
  well_stopped a (grun (by_oracle a) (send_message fn body) tt).
Proof.
  unfold send_message, MDo.
  destruct (a (MailNewClient "localhost" 1025)) as [e|] eqn:E1.
  - eapply well_stopped_fail; [exact E1 | rewrite E1; reflexivity].
  - apply well_stopped_step; [exact E1|]. rewrite E1.
    destruct (a (ClientDialAndSend "Confirme sua viagem" body)) as [e|] eqn:E2.
    + eapply well_stopped_fail; [exact E2 | rewrite E2; reflexivity].
    + apply well_stopped_step; [exact E2|]. rewrite E2.
      unfold well_stopped. simpl. constructor.
Qed.

Lemma to_each_well_stopped (a : forall c, mans c)
  (k : mprog (option error)) (ps : list Participant) :
  well_stopped a (grun (by_oracle a) k tt) ->
  well_stopped a (grun (by_oracle a) (to_each ps k) tt).
Proof.
  intros Hk. induction ps as [|p ps IH]; [exact Hk|].
  simpl to_each. unfold MDo.
  destruct (a (MsgTo (part_Email p))) as [e|] eqn:E.
  - eapply well_stopped_fail; [exact E | rewrite E; reflexivity].
  - apply well_stopped_step; [exact E|]. rewrite E. exact IH.
Qed.

(** X20.  Both functions of the mailer stop at the first call that
    fails: every call before the last has succeeded, a [nil] result means
    that the last call, the sending, has succeeded too, and an error
    result is the error of the last call under a message of the mailer.
    No message is sent after a failure, and no failure is passed over. *)
Theorem mailpit_well_stopped (a : forall c, mans c) (trupID : UUID) :
  well_stopped a
    (grun (by_oracle a) (SendEmailInvitations_mailpit F trupID) tt)
  /\ well_stopped a
       (grun (by_oracle a) (SendConfirmTripEmailToTripOwner_mailpit F trupID)
             tt).
Proof.
  split.
  - unfold SendEmailInvitations_mailpit, MDo.
    destruct (a (MGetTrip trupID)) as [trip|e] eqn:E1.
    2:{ eapply well_stopped_fail; [rewrite E1; reflexivity|].
        rewrite E1. reflexivity. }
    apply well_stopped_step; [unfold succeeded; rewrite E1; reflexivity|].
    rewrite E1.
    destruct (a (MGetParticipants trupID)) as [parts|e] eqn:E2.
    2:{ eapply well_stopped_fail; [rewrite E2; reflexivity|].
        rewrite E2. reflexivity. }
    apply well_stopped_step; [unfold succeeded; rewrite E2; reflexivity|].
    rewrite E2.
    destruct (a (MsgFrom "mailpit@journey.com")) as [e|] eqn:E3.
    + eapply well_stopped_fail; [exact E3 | rewrite E3; reflexivity].
    + apply well_stopped_step; [exact E3|]. rewrite E3.
      apply to_each_well_stopped. apply send_message_well_stopped.
  - unfold SendConfirmTripEmailToTripOwner_mailpit, MDo.
    destruct (a (MGetTrip trupID)) as [trip|e] eqn:E1.
    2:{ eapply well_stopped_fail; [rewrite E1; reflexivity|].
        rewrite E1. reflexivity. }
    apply well_stopped_step; [unfold succeeded; rewrite E1; reflexivity|].
    rewrite E1.
    destruct (a (MsgFrom "mailpit@journey.com")) as [e|] eqn:E3.
    + eapply well_stopped_fail; [exact E3 | rewrite E3; reflexivity].
    + apply well_stopped_step; [exact E3|]. rewrite E3.
      destruct (a (MsgTo (trip_OwnerEmail trip))) as [e|] eqn:E4.
      * eapply well_stopped_fail; [exact E4 | rewrite E4; reflexivity].
      * apply well_stopped_step; [exact E4|]. rewrite E4.
        apply send_message_well_stopped.
Qed.
End MailpitFacts.

(** ** Creating activities, then listing them *)

Lemma early_repeat_three_at_end (pre : list Time) (d : Time) :
  early_repeat (pre ++ [d; d; d]) = true.
Proof.
  apply early_repeat_iff. exists (List.length pre), d.
  rewrite !nth_error_app2 by lia.
  replace (S (List.length pre) - List.length pre) with 1 by lia.
  rewrite Nat.sub_diag, length_app. simpl. repeat split; lia.
Qed.

Section CreateThenList.
Context (lib : Libs).

Lemma PostTripsTripIDActivities_stored (w : World) (r : Request)
  (tripID : string) (id : UUID) (t : Trip) :
  uuid_Parse lib tripID = inl id ->
  faults w = [] ->
  find_trip id w = Some t ->
  let res := run mem (PostTripsTripIDActivities lib r tripID) w in
  out res = Returned (PostTripsTripIDActivitiesJSON201Response
                        (uuid_String lib (next_id w)))
  /\ activities (final res)
     = activities w ++ [mkActivity (next_id w) id "" (mkTimestamp zeroTime true)]
  /\ faults (final res) = []
  /\ trips (final res) = trips w.
Proof.
  intros Hid Hf Ht res. subst res. unfold PostTripsTripIDActivities.
  rewrite Hid. simpl. unfold next_fault. rewrite Hf. simpl. rewrite Ht.
  simpl. unfold next_fault. simpl. rewrite Hf. simpl. repeat split.
  rewrite Hf. reflexivity.
Qed.

(** X21.  In the in-memory store with no fault to come, three activities
    created one after the other on a trip through
    [POST /trips/{tripId}/activities] are all stored at the zero time, and
    the itinerary of the trip can no longer be read: the next
    [GET /trips/{tripId}/activities] panics with an index out of range,
    whatever the trip held before and whatever the three requests said. *)
Theorem three_created_activities_then_list_panics (w : World)
  (r1 r2 r3 r : Request) (tripID : string) (id : UUID) (t : Trip)
  (guard : bool) :
  uuid_Parse lib tripID = inl id ->
  faults w = [] ->
  find_trip id w = Some t ->
  let w1 := final (run mem (PostTripsTripIDActivities lib r1 tripID) w) in
  let w2 := final (run mem (PostTripsTripIDActivities lib r2 tripID) w1) in
  let w3 := final (run mem (PostTripsTripIDActivities lib r3 tripID) w2) in
  out (run mem (GetTripsTripIDActivities_with lib guard r tripID) w3)
  = Panicked "runtime error: index out of range".
Proof.
  intros Hid Hf Ht w1 w2 w3.
  destruct (PostTripsTripIDActivities_stored w r1 tripID id t Hid Hf Ht)
    as (_ & Ha1 & Hf1 & Ht1).
  fold w1 in Ha1, Hf1, Ht1.
  assert (Hfind1 : find_trip id w1 = Some t)
    by (unfold find_trip in *; rewrite Ht1; exact Ht).
  destruct (PostTripsTripIDActivities_stored w1 r2 tripID id t Hid Hf1 Hfind1)
    as (_ & Ha2 & Hf2 & Ht2).
  fold w2 in Ha2, Hf2, Ht2.
  assert (Hfind2 : find_trip id w2 = Some t)
    by (unfold find_trip in *; rewrite Ht2; exact Hfind1).
  destruct (PostTripsTripIDActivities_stored w2 r3 tripID id t Hid Hf2 Hfind2)
    as (_ & Ha3 & Hf3 & _).
  fold w3 in Ha3, Hf3.
  set (a1 := mkActivity (next_id w) id "" (mkTimestamp zeroTime true)) in *.
  set (a2 := mkActivity (next_id w1) id "" (mkTimestamp zeroTime true)) in *.
  set (a3 := mkActivity (next_id w2) id "" (mkTimestamp zeroTime true)) in *.
  set (mine := filter (fun a => N.eqb (act_TripID a) id) (activities w)).
  assert (Hlist : filter (fun a => N.eqb (act_TripID a) id) (activities w3)
                  = mine ++ [a1; a2; a3]).
  { rewrite Ha3, Ha2, Ha1, <- !app_assoc. simpl app.
    rewrite filter_app. simpl. rewrite N.eqb_refl. reflexivity. }
  assert (Hget : fst (mem (GetTripActivities id) w3)
                 = inl (Some (mine ++ [a1; a2; a3]))).
  { simpl. unfold next_fault. rewrite Hf3. simpl. rewrite Hlist.
    destruct mine; reflexivity. }
  rewrite (GetTripsTripIDActivities_out lib mem w3 guard r tripID id _ Hid Hget).
  assert (Hpanic : group_by_date lib guard (Some (mine ++ [a1; a2; a3])) = None).
  { apply group_by_date_None. cbn [elems]. rewrite map_app.
    apply (early_repeat_three_at_end _ zeroTime). }
  rewrite Hpanic. reflexivity.
Qed.
End CreateThenList.

(** ** Runs on the test doubles *)

Lemma GetTripsTripIDActivities_distinct_dates_witness :
  out (run mem (GetTripsTripIDActivities lib0 (mkRequest "") "1")
         (with_activities [(10, "x"); (20, "y"); (30, "z")]%Z world0))
  = Returned
      (GetTripsTripIDActivitiesJSON200Response
         {| Activities :=
              Some (map (fun a => {| outer_Activities := Some [inner_of lib0 a];
                                     outer_Date := date_of a |})
                        [activity_at 0 10 "x"; activity_at 1 20 "y";
                         activity_at 2 30 "z"]) |}).
Proof.
  apply (GetTripsTripIDActivities_distinct_dates lib0 mem
           (with_activities [(10, "x"); (20, "y"); (30, "z")]%Z world0)
           true (mkRequest "") "1" 1%N
           (activity_at 0 10 "x")
           [activity_at 1 20 "y"; activity_at 2 30 "z"]);
    [reflexivity | reflexivity |].
  repeat constructor; simpl; intuition discriminate.
Defined.

Lemma group_by_date_sound_witness :
  (forall g, In g (elems two_days_groups) ->
     outer_Activities g
     = Some (filter (at_date (outer_Date g))
                    (map (inner_of lib0) (elems two_days)))
     /\ exists a, In a (elems two_days) /\ date_of a = outer_Date g)
  /\ (forall a, In a (elems two_days) ->
        exists g, In g (elems two_days_groups) /\ outer_Date g = date_of a
                  /\ In (inner_of lib0 a) (elems (outer_Activities g)))
  /\ List.length (elems two_days_groups) <= len two_days.
Proof.
  apply (group_by_date_sound lib0 true two_days two_days_groups).
  reflexivity.
Defined.

Lemma PutTripsTripID_update_witness :
  let res := run mem (PutTripsTripID (stub_lib (5, 9)%Z) (mkRequest "Porto") "1")
               world0 in
  trace res
  = [GetTrip 1;
     UpdateTrip {| utp_ID := 1;
                   utp_Destination := "Porto";
                   utp_IsConfirmed := false;
                   utp_StartsAt := mkTimestamp 5 true;
                   utp_EndsAt := mkTimestamp 9 true |}]
  /\ out res
     = Returned (PutTripsTripIDJSON204Response
                   (mkUpdateTripRequest "Porto" 9 5)).
Proof.
  apply (PutTripsTripID_update (stub_lib (5, 9)%Z) mem world0
           (mkRequest "Porto") "1" 1%N lisbon); reflexivity.
Defined.

Lemma PostTripsTripIDInvites_begin_only_when_witness :
  exists id trip,
    uuid_Parse lib0 "1" = inl id
    /\ fst (mem (GetTrip id) world0) = inl trip
    /\ validate_InviteParticipantRequest lib0
         (fst (decode_InviteParticipantRequest lib0 "bob@example.com")) = None.
Proof.
  apply (PostTripsTripIDInvites_begin_only_when lib0 mem world0
           (mkRequest "bob@example.com") "1").
  right. left. reflexivity.
Defined.

Lemma PostTripsTripIDInvites_one_row_witness :
  exists id,
    uuid_Parse lib0 "1" = inl id
    /\ Some [ {| inv_TripID := 1%N; inv_Email := "bob@example.com" |} ]
       = Some [ {| inv_TripID := id;
                   inv_Email :=
                     ipr_Email (fst (decode_InviteParticipantRequest lib0
                                       "bob@example.com")) |} ].
Proof.
  apply (PostTripsTripIDInvites_one_row lib0 mem world0
           (mkRequest "bob@example.com") "1" 0).
  right. right. left. reflexivity.
Defined.

Lemma PatchParticipantsParticipantIDConfirm_twice_witness :
  let H := PatchParticipantsParticipantIDConfirm lib0 (mkRequest "") "3" in
  let first := run mem H world0 in
  let second := run mem H (final first) in
  out first = Returned PatchParticipantsParticipantIDConfirmJSON204Response
  /\ participants (final first) = map (confirm_row 3) (participants world0)
  /\ out second
     = Returned (PatchParticipantsParticipantIDConfirmJSON400Response
                   (mkError "participant already confirmed"))
  /\ trace second = [GetParticipant 3]
  /\ participants (final second) = participants (final first).
Proof.
  apply (PatchParticipantsParticipantIDConfirm_twice lib0 world0
           (mkRequest "") "3" 3%N
           (mkParticipant 3 1 "rui@example.com" false)); reflexivity.
Defined.

Lemma GetTripsTripIDLinks_value_witness :
  gout (grun (by_oracle api_ok) (GetTripsTripIDLinks lib0 (mkRequest "") "1") tt)
  = Returned (GetTripsTripIDLinksJSON200Response
                (Some (map (link_item (uuid_String lib0)) (elems two_links)))).
Proof.
  apply (GetTripsTripIDLinks_value lib0 (by_oracle api_ok) tt (mkRequest "")
           "1" 1%N lisbon two_links); reflexivity.
Defined.

Lemma PostTripsTripIDLinks_invalid_json_witness :
  let res := grun (by_oracle api_ok)
               (PostTripsTripIDLinks lib0 stub_lib2 (mkRequest "") "1") tt in
  gout res
  = Returned (PostTripsTripIDLinksJSON400Response
                (mkError "invalid json: EOF"))
  /\ gtrace res = [Base (GetTrip 1)].
Proof.
  apply (PostTripsTripIDLinks_invalid_json lib0 stub_lib2 (by_oracle api_ok)
           tt (mkRequest "") "1" 1%N lisbon (Err "EOF")); reflexivity.
Defined.

Lemma PostTripsTripIDLinks_created_from_body_witness :
  exists id body,
    uuid_Parse lib0 "1" = inl id
    /\ decode_CreateLinkRequest stub_lib2 "https://example.com/map"
       = (body, None)
    /\ validate_CreateLinkRequest stub_lib2 body = None
    /\ mkCreateTripLinkParams 1 "Booking" "https://example.com/map"
       = {| ctl_TripID := id;
            ctl_Title := clr_Title body;
            ctl_Url := clr_URL body |}.
Proof.
  apply (PostTripsTripIDLinks_created_from_body lib0 stub_lib2
           (by_oracle api_ok) tt (mkRequest "https://example.com/map") "1").
  right. left. reflexivity.
Defined.

Lemma SendEmailInvitations_done_witness :
  exists trip participants,
    fst (by_oracle mail_ok (MGetTrip 1) tt) = inl trip
    /\ fst (by_oracle mail_ok (MGetParticipants 1)
              (snd (by_oracle mail_ok (MGetTrip 1) tt)))
       = inl participants
    /\ gtrace (grun (by_oracle mail_ok)
                 (SendEmailInvitations_mailpit stub_Format_DateOnly 1) tt)
       = [MGetTrip 1; MGetParticipants 1; MsgFrom "mailpit@journey.com"]
         ++ map (fun p => MsgTo (part_Email p)) (elems participants)
         ++ [MailNewClient "localhost" 1025;
             ClientDialAndSend "Confirme sua viagem"
               (invitation_body (trip_Destination trip)
                  (stub_Format_DateOnly (ts_Time (trip_StartsAt trip))))].
Proof.
  apply (SendEmailInvitations_done stub_Format_DateOnly (by_oracle mail_ok)
           tt 1%N).
  reflexivity.
Defined.

Lemma SendConfirmTripEmailToTripOwner_done_witness :
  exists trip,
    fst (by_oracle mail_ok (MGetTrip 1) tt) = inl trip
    /\ gtrace (grun (by_oracle mail_ok)
                 (SendConfirmTripEmailToTripOwner_mailpit
                    stub_Format_DateOnly 1) tt)
       = [MGetTrip 1; MsgFrom "mailpit@journey.com";
          MsgTo (trip_OwnerEmail trip);
          MailNewClient "localhost" 1025;
          ClientDialAndSend "Confirme sua viagem"
            (owner_body (trip_OwnerName trip) (trip_Destination trip)
               (stub_Format_DateOnly (ts_Time (trip_StartsAt trip))))].
Proof.
  apply (SendConfirmTripEmailToTripOwner_done stub_Format_DateOnly
           (by_oracle mail_ok) tt 1%N).
  reflexivity.
Defined.

Lemma three_created_activities_then_list_panics_witness :
  let post body := PostTripsTripIDActivities lib0 (mkRequest body) "1" in
  let w1 := final (run mem (post "hike") world0) in
  let w2 := final (run mem (post "museum") w1) in
  let w3 := final (run mem (post "dinner") w2) in
  out (run mem (GetTripsTripIDActivities lib0 (mkRequest "") "1") w3)
  = Panicked "runtime error: index out of range".
Proof.
  apply (three_created_activities_then_list_panics lib0 world0
           (mkRequest "hike") (mkRequest "museum") (mkRequest "dinner")
           (mkRequest "") "1" 1%N lisbon true); reflexivity.
Defined.
